(** * A shallow embedding of gym_flock/envs/mapping_local.py (MappingLocalEnv)

    Numbers are rationals [Q] (the numpy float64 arithmetic is read exactly);
    [np.Inf] on the diagonal of [r2] is the extra point [XInf] of [xreal].
    The environment object [self] is the record [env]; the process-wide numpy
    random state ([np.random]) is [gstate]; methods run in a small
    state-and-exception monad [M] over both, where a raised exception keeps
    every mutation of [self] done before the raise, as Python does. *)

From Stdlib Require Import List Bool Arith Lia ZArith QArith Qminmax.
From Stdlib Require Import Permutation Sorted.
Import ListNotations.

Local Open Scope Q_scope.

(** ** Numeric helpers *)

Inductive xreal := XFin (q : Q) | XInf.

Definition Qltb (p q : Q) : bool := negb (Qle_bool q p).

(** [a < b] on floats extended with [np.Inf]. *)
Definition xltb (a b : xreal) : bool :=
  match a, b with
  | XFin p, XFin q => Qltb p q
  | XFin _, XInf => true
  | XInf, _ => false
  end.

(** [np.clip(v, a_min=lo, a_max=hi)] is [minimum(maximum(v, lo), hi)]. *)
Definition clip (lo hi v : Q) : Q := Qmin (Qmax v lo) hi.

Definition sq (q : Q) : Q := q * q.

(** Square root as used by [np.linalg.norm]: rounded down to 52 fractional
    bits (a float sqrt with a fixed binary precision). *)
Definition qsqrt (q : Q) : Q :=
  Qmake (Z.sqrt (Qnum q * Zpos (Qden q) * 4 ^ 52)) (Qden q * 2 ^ 52).

Definition Qofnat (k : nat) : Q := inject_Z (Z.of_nat k).

(** ** List helpers (numpy indexing) *)

Definition mapi {A B} (f : nat -> A -> B) (l : list A) : list B :=
  map (fun p => f (fst p) (snd p)) (combine (seq 0 (length l)) l).

(** [l[i] = v]; indices are in range wherever it is used. *)
Fixpoint list_set {A} (i : nat) (v : A) (l : list A) : list A :=
  match l, i with
  | [], _ => []
  | _ :: l', O => v :: l'
  | a :: l', S i' => a :: list_set i' v l'
  end.

Fixpoint traverse_opt {A B} (f : A -> option B) (l : list A) : option (list B) :=
  match l with
  | [] => Some []
  | a :: l' =>
      match f a, traverse_opt f l' with
      | Some b, Some bs => Some (b :: bs)
      | _, _ => None
      end
  end.

Fixpoint count_true (l : list bool) : nat :=
  match l with
  | [] => O
  | b :: l' => if b then S (count_true l') else count_true l'
  end.

(** [arr[mask]] for a boolean mask of the array's own shape, flattened in
    row-major order. *)
Fixpoint bool_index {A} (mask : list bool) (l : list A) : list A :=
  match mask, l with
  | b :: mask', a :: l' => if b then a :: bool_index mask' l' else bool_index mask' l'
  | _, _ => []
  end.

(** numpy raises [IndexError] when the mask shape differs from the array's. *)
Definition bool_index_checked {A} (mask : list bool) (l : list A) : option (list A) :=
  if Nat.eqb (length mask) (length l) then Some (bool_index mask l) else None.

(** [arr[mask] = vals] writes [vals] in order at the [True] places. *)
Fixpoint bool_assign (mask vals : list bool) : list bool :=
  match mask with
  | [] => []
  | true :: mask' =>
      match vals with
      | v :: vals' => v :: bool_assign mask' vals'
      | [] => true :: bool_assign mask' []
      end
  | false :: mask' => false :: bool_assign mask' vals
  end.

(** numpy raises [ValueError] unless there is one value per [True] place. *)
Definition bool_assign_checked (mask vals : list bool) : option (list bool) :=
  if Nat.eqb (count_true mask) (length vals) then Some (bool_assign mask vals) else None.

(** [.reshape((-1, 2))] of a flat array; an odd size raises [ValueError]. *)
Fixpoint reshape_pairs {A} (l : list A) : option (list (A * A)) :=
  match l with
  | [] => Some []
  | [_] => None
  | a :: b :: r => option_map (cons (a, b)) (reshape_pairs r)
  end.

(** ** Selection: [np.argsort] and [np.argpartition(a, range(k))[:k]]

    Both put the [k] smallest keys first in increasing order; among equal
    keys numpy's introselect/quicksort order is unspecified, the model keeps
    index order. *)
Fixpoint insert_key (p : xreal * nat) (l : list (xreal * nat)) : list (xreal * nat) :=
  match l with
  | [] => [p]
  | q :: l' => if xltb (fst p) (fst q) then p :: l else q :: insert_key p l'
  end.

Definition sort_keys (l : list (xreal * nat)) : list (xreal * nat) :=
  fold_left (fun acc p => insert_key p acc) l [].

Definition argsort (keys : list xreal) : list nat :=
  map snd (sort_keys (combine keys (seq 0 (length keys)))).

(** [kth = range(k)] raises [ValueError] as soon as [k - 1 >= len]. *)
Definition argpartition_range (k : nat) (keys : list xreal) : option (list nat) :=
  if Nat.ltb (length keys) k then None else Some (firstn k (argsort keys)).

(** ** Data model *)

(** One row [x[i, :] = (px, py, vx, vy)] of the [n_agents x 4] state. *)
Record agent := mkAgent { px : Q; py : Q; vx : Q; vy : Q }.

Definition zero_agent : agent := mkAgent 0 0 0 0.

(** Configuration attributes of [self]. *)
Record params := mkParams {
  nearest_agents : nat;
  nearest_targets : nat;
  n_features : nat;
  mean_pooling : bool;
  n_agents : nat;
  dt : Q;
  v_max : Q;
  max_accel : Q;
  action_scalar : Q;
  px_max : Q;
  py_max : Q;
  obs_rad : Q;
  obs_rad2 : Q
}.

(** The attributes written by [compute_helpers] and read by callers. *)
Record helpers := mkHelpers {
  adj_mat : list (list Q);
  adj_mat_mean : list (list Q);
  n_targets_obs_per_agent : list nat;
  state_values : list (list Q);
  state_network : list (list Q);
  greedy_action : list (list Q)
}.

Definition no_helpers : helpers := mkHelpers [] [] [] [] [] [].

(** [self]: [target_x] and [target_unobserved] are the [n_agents^2 x 2]
    arrays flattened row-major, target [t] at places [2t] and [2t+1]. *)
Record env := mkEnv {
  prm : params;
  np_random : Z;
  x : list agent;
  u : list (Q * Q);
  target_x : list Q;
  target_unobserved : list bool;
  hlp : helpers
}.

Definition set_prm e p := mkEnv p (np_random e) (x e) (u e) (target_x e) (target_unobserved e) (hlp e).
Definition set_np_random e r := mkEnv (prm e) r (x e) (u e) (target_x e) (target_unobserved e) (hlp e).
Definition set_x e xs := mkEnv (prm e) (np_random e) xs (u e) (target_x e) (target_unobserved e) (hlp e).
Definition set_u e us := mkEnv (prm e) (np_random e) (x e) us (target_x e) (target_unobserved e) (hlp e).
Definition set_target_x e t := mkEnv (prm e) (np_random e) (x e) (u e) t (target_unobserved e) (hlp e).
Definition set_mask e m := mkEnv (prm e) (np_random e) (x e) (u e) (target_x e) m (hlp e).
Definition set_hlp e h := mkEnv (prm e) (np_random e) (x e) (u e) (target_x e) (target_unobserved e) h.

(** The global numpy random state: the stream of [random_sample()] draws
    in [0, 1) that the process-wide generator produces, and the position
    reached in it.  Its initial state is drawn from OS entropy at import. *)
Record gstate := mkG { gdraw : nat -> Q; gpos : nat }.

(** [np.random.uniform(low, high, size)]: [low + (high - low) * sample]. *)
Definition uniform (lo hi : Q) (size : nat) (g : gstate) : list Q * gstate :=
  (map (fun k => lo + (hi - lo) * gdraw g (gpos g + k)) (seq 0 size),
   mkG (gdraw g) (gpos g + size)).

(** A numpy array of any rank: its shape and its flat row-major data. *)
Record ndarray := mkArr { shape : list nat; data : list Q }.

(** ** The state-and-exception monad *)

Inductive exc := AssertionError | ValueError | IndexError.

Definition world := (env * gstate)%type.

Definition M (A : Type) := world -> (exc + A) * world.

Definition ret {A} (a : A) : M A := fun w => (inr a, w).

Definition bind {A B} (m : M A) (f : A -> M B) : M B :=
  fun w => match m w with
           | (inl e, w') => (inl e, w')
           | (inr a, w') => f a w'
           end.

Notation "x <- m ;; k" := (bind m (fun x => k)) (at level 61, m at next level, right associativity).
Notation "m ;;; k" := (bind m (fun _ => k)) (at level 61, right associativity).

Definition raise {A} (ex : exc) : M A := fun w => (inl ex, w).
Definition get_self : M env := fun w => (inr (fst w), w).
Definition put_self (e : env) : M unit := fun w => (inr tt, (e, snd w)).
Definition get_global : M gstate := fun w => (inr (snd w), w).
Definition put_global (g : gstate) : M unit := fun w => (inr tt, (fst w, g)).

Definition lift_opt {A} (ex : exc) (o : option A) : M A :=
  match o with Some a => ret a | None => raise ex end.

(** [np.random.uniform] on the global generator. *)
Definition np_uniform (lo hi : Q) (size : nat) : M (list Q) :=
  g <- get_global ;;
  let '(vs, g') := uniform lo hi size g in
  put_global g' ;;; ret vs.

(** ** [compute_helpers]: neighbours *)

(** [self.diff[i, j, :] = x[i, :] - x[j, :]]. *)
Definition diff_agent (a b : agent) : list Q :=
  [px a - px b; py a - py b; vx a - vx b; vy a - vy b].

(** Row [i] of [self.r2], with [np.fill_diagonal(self.r2, np.Inf)]. *)
Definition r2_row (xs : list agent) (i : nat) (a : agent) : list xreal :=
  mapi (fun j b => if Nat.eqb i j then XInf
                   else XFin (sq (px a - px b) + sq (py a - py b))) xs.

(** Row [i] of [obs_neigh]: the [diff] rows of the selected neighbours. *)
Definition obs_neigh_row (xs : list agent) (a : agent) (near : list nat) (k : nat) : list Q :=
  concat (map (fun i => nth (nth i near O) (map (diff_agent a) xs) [0; 0; 0; 0]) (seq 0 k)).

(** [self.adj_mat[:, cols] = 1.0]: whole columns are written. *)
Definition set_columns (cols : list nat) (m : list (list Q)) : list (list Q) :=
  fold_left (fun m c => map (list_set c 1) m) cols m.

Definition fill_diagonal (m : list (list Q)) (v : Q) : list (list Q) :=
  mapi (fun r row => list_set r v row) m.

(** The loop [for i in range(self.nearest_agents): ...
    self.adj_mat[:, nearest[:, i]] = 1.0] and the diagonal reset. *)
Definition build_adj (n k : nat) (nearest : list (list nat)) : list (list Q) :=
  let m0 := repeat (repeat 0 n) n in
  let m1 := fold_left (fun m i => set_columns (map (fun row => nth i row O) nearest) m)
                      (seq 0 k) m0 in
  fill_diagonal m1 0.

Definition Qsum (l : list Q) : Q := fold_left Qplus l 0.

(** [n_neighbors[n_neighbors == 0] = 1; adj_mat / n_neighbors]. *)
Definition mean_normalize (m : list (list Q)) : list (list Q) :=
  map (fun row => let s := Qsum row in
                  let s' := if Qeq_bool s 0 then 1 else s in
                  map (fun a => a / s') row) m.

(** ** [compute_helpers]: targets *)

Definition diff_target (a : agent) (t : Q * Q) : Q * Q := (px a - fst t, py a - snd t).

Definition r2_of (d : Q * Q) : Q := sq (fst d) + sq (snd d).

(** Row of [obs_target]: zeros, then the first [n_near] selected pairs. *)
Definition obs_target_row (drow : list (Q * Q)) (near : list nat) (n_near nt : nat) : list Q :=
  concat (map (fun i => let d := nth (nth i near O) drow (0, 0) in [fst d; snd d]) (seq 0 n_near))
  ++ repeat 0 (2 * (nt - n_near)).

Definition compute_helpers : M unit :=
  e <- get_self ;;
  let p := prm e in
  let xs := x e in
  (* self.x.reshape((self.n_agents, 1, self.nx_system)) *)
  (if Nat.eqb (length xs) (n_agents p) then ret tt else raise ValueError) ;;;
  let r2 := mapi (r2_row xs) xs in
  nearest <- lift_opt ValueError (traverse_opt (argpartition_range (nearest_agents p)) r2) ;;
  let obs_neigh := map (fun ia => obs_neigh_row xs (snd ia) (nth (fst ia) nearest []) (nearest_agents p))
                       (combine (seq 0 (length xs)) xs) in
  let adj := build_adj (n_agents p) (nearest_agents p) nearest in
  let adjm := mean_normalize adj in
  let h := hlp e in
  put_self (set_hlp e (mkHelpers adj adjm (n_targets_obs_per_agent h) (state_values h)
                                 (state_network h) (greedy_action h))) ;;;
  e1 <- get_self ;;
  tflat <- lift_opt IndexError (bool_index_checked (target_unobserved e1) (target_x e1)) ;;
  tsel <- lift_opt ValueError (reshape_pairs tflat) ;;
  let diff_targets := map (fun a => map (diff_target a) tsel) xs in
  let r2_targets := map (map r2_of) diff_targets in
  let nt := nearest_targets p in
  let m := length tsel in
  nearest_t <- (if Nat.ltb m nt
                then ret (map (fun row => argsort (map XFin row)) r2_targets)
                else lift_opt ValueError
                       (traverse_opt (fun row => argpartition_range nt (map XFin row)) r2_targets)) ;;
  let n_near := Nat.min nt m in
  let obs_target := map (fun ir => obs_target_row (snd ir) (nth (fst ir) nearest_t []) n_near nt)
                        (combine (seq 0 (length diff_targets)) diff_targets) in
  let target_observed :=
    map (fun t => existsb (fun row => Qltb (nth t row 0) (obs_rad2 p)) r2_targets) (seq 0 m) in
  let vals := concat (map (fun o => [negb o; negb o]) target_observed) in
  mask' <- lift_opt ValueError (bool_assign_checked (target_unobserved e1) vals) ;;
  let n_obs := map (fun row => count_true (map (fun r => Qltb r (obs_rad2 p)) row)) r2_targets in
  let sv := map (fun i => [vx (nth i xs zero_agent); vy (nth i xs zero_agent)]
                            ++ nth i obs_neigh [] ++ nth i obs_target [])
                (seq 0 (length xs)) in
  let ga := map (fun row => map (fun q => -1 * q) (firstn 2 row)) obs_target in
  let sn := if mean_pooling p then adjm else adj in
  put_self (set_hlp (set_mask e1 mask') (mkHelpers adj adjm n_obs sv sn ga)).

(** ** The methods *)

(** [np.linspace(start, stop, num)]. *)
Definition linspace (start stop : Q) (num : nat) : list Q :=
  match num with
  | O => []
  | S O => [start]
  | S k => map (fun i => if Nat.eqb i k then stop
                         else start + Qofnat i * ((stop - start) / Qofnat k)) (seq 0 num)
  end.

(** [tx, ty = np.meshgrid(x, y)] flattened and stacked into rows [(tx, ty)]:
    target [r * len x + c] is [(x[c], y[r])]. *)
Definition target_grid (xg yg : list Q) : list Q :=
  concat (map (fun ty => concat (map (fun tx => [tx; ty]) xg)) yg).

(** [np.ones((n * n, 2), dtype=np.bool)], flattened. *)
Definition ones_mask (n : nat) : list bool := repeat true (2 * (n * n)).

(** [__init__], after which [self.seed()] resolves the seed [s0]. *)
Definition init_env (s0 : Z) : env :=
  let n := 20%nat in
  let pxm := Qofnat n in
  let p := mkParams 4 4 (2 + 4 * 4 + 2 * 4) true n (1 # 10) 5 1 10 pxm pxm 1 (1 * 1) in
  mkEnv p s0 [] [] (target_grid (linspace (- pxm) pxm n) (linspace (- pxm) pxm n))
        (ones_mask n) no_helpers.

(** The keys read by [params_from_cfg]. *)
Record cfg := mkCfg {
  c_n_agents : nat;
  c_nearest_agents : nat;
  c_nearest_targets : nat;
  c_action_scalar : Q;
  c_obs_radius : Q;
  c_v_max : Q;
  c_dt : Q
}.

Definition params_from_cfg (a : cfg) : M unit :=
  e <- get_self ;;
  let p := prm e in
  let n := c_n_agents a in
  let pxm := Qofnat n in
  let p' := mkParams (c_nearest_agents a) (c_nearest_targets a)
                     (2 + 4 * c_nearest_agents a + 2 * c_nearest_targets a)
                     (mean_pooling p) n (c_dt a) (c_v_max a) (max_accel p) (c_action_scalar a)
                     pxm pxm (c_obs_radius a) (c_obs_radius a * c_obs_radius a) in
  put_self (set_mask (set_target_x (set_prm e p')
                        (target_grid (linspace (- pxm) pxm n) (linspace (- pxm) pxm n)))
                     (ones_mask n)).

(** [seed(seed)]: [self.np_random, seed = seeding.np_random(seed)], with
    the resolved seed standing for the seeded generator. *)
Definition seed (s : Z) : M (list Z) :=
  e <- get_self ;;
  put_self (set_np_random e s) ;;; ret [s].

Fixpoint zip4 (a b c d : list Q) : list agent :=
  match a, b, c, d with
  | a0 :: a', b0 :: b', c0 :: c', d0 :: d' => mkAgent a0 b0 c0 d0 :: zip4 a' b' c' d'
  | _, _, _, _ => []
  end.

Definition observation := (list (list Q) * list (list Q))%type.

Definition reset : M observation :=
  e <- get_self ;;
  let p := prm e in
  let n := n_agents p in
  c0 <- np_uniform (- px_max p) (px_max p) n ;;
  c1 <- np_uniform (- py_max p) (py_max p) n ;;
  c2 <- np_uniform (- v_max p) (v_max p) n ;;
  c3 <- np_uniform (- v_max p) (v_max p) n ;;
  put_self (set_x (set_mask e (ones_mask n)) (zip4 c0 c1 c2 c3)) ;;;
  compute_helpers ;;;
  e' <- get_self ;;
  ret (state_values (hlp e'), state_network (hlp e')).

(** Lines 140-148 for one agent, [a = self.u[i, :]]. *)
Definition integrate (p : params) (ag : agent) (a : Q * Q) : agent :=
  mkAgent (px ag + vx ag * dt p + fst a * dt p * dt p * (1 # 2))
          (py ag + vy ag * dt p + snd a * dt p * dt p * (1 # 2))
          (clip (-1 * v_max p) (v_max p) (vx ag + fst a * dt p))
          (clip (-1 * v_max p) (v_max p) (vy ag + snd a * dt p)).

Definition list_eqb (l1 l2 : list nat) : bool :=
  if list_eq_dec Nat.eq_dec l1 l2 then true else false.

(** [np.linalg.norm(self.x[:, 0:2] - old_x[:, 0:2], axis=1)]. *)
Definition dist_traveled (xs old : list agent) : list Q :=
  map (fun ab => qsqrt (sq (px (fst ab) - px (snd ab)) + sq (py (fst ab) - py (snd ab))))
      (combine xs old).

Definition reward_of (n_obs : list nat) (dist : list Q) : list Q :=
  map (fun kd => Qofnat (fst kd) - (1 # 10) * snd kd) (combine n_obs dist).

Definition step_result := (observation * list Q * bool)%type.

Definition step (cmd : ndarray) : M step_result :=
  e <- get_self ;;
  let p := prm e in
  (if list_eqb (shape cmd) [n_agents p; 2%nat] then ret tt else raise AssertionError) ;;;
  let uc := map (clip (- max_accel p) (max_accel p)) (data cmd) in
  us <- lift_opt ValueError (reshape_pairs (map (fun a => a * action_scalar p) uc)) ;;
  put_self (set_u e us) ;;;
  e1 <- get_self ;;
  let old_x := x e1 in
  (* the column assignments broadcast only when x has n_agents rows *)
  (if Nat.eqb (length old_x) (n_agents p) then ret tt else raise ValueError) ;;;
  put_self (set_x e1 (map (fun xa => integrate p (fst xa) (snd xa)) (combine old_x us))) ;;;
  compute_helpers ;;;
  e2 <- get_self ;;
  let done := Nat.eqb 0 (count_true (target_unobserved e2)) in
  let dist := dist_traveled (x e2) old_x in
  ret ((state_values (hlp e2), state_network (hlp e2)),
       reward_of (n_targets_obs_per_agent (hlp e2)) dist, done).

(** ** Drivers: method sequences on one instance *)

(** Repeated [env.step(c)] calls; an exception ends the call but the
    instance keeps whatever was mutated, and the caller may go on. *)
Definition run_steps (cs : list ndarray) (w : world) : world :=
  fold_left (fun w c => snd (step c w)) cs w.

Inductive op := OpCfg (a : cfg) | OpSeed (s : Z) | OpReset | OpStep (c : ndarray).

Definition run_op (o : op) (w : world) : world :=
  match o with
  | OpCfg a => snd (params_from_cfg a w)
  | OpSeed s => snd (seed s w)
  | OpReset => snd (reset w)
  | OpStep c => snd (step c w)
  end.

Definition run_ops (os : list op) (w : world) : world := fold_left (fun w o => run_op o w) os w.

(** ** Reading the flat arrays as targets *)

(** Both entries of each row [2t, 2t+1] of a flat [N x 2] mask are equal. *)
Fixpoint pairs_eqb (m : list bool) : bool :=
  match m with
  | [] => true
  | [_] => false
  | a :: b :: r => Bool.eqb a b && pairs_eqb r
  end.

Fixpoint targets_of (l : list Q) : list (Q * Q) :=
  match l with
  | a :: b :: r => (a, b) :: targets_of r
  | _ => []
  end.

Fixpoint mask_rows (m : list bool) : list bool :=
  match m with
  | a :: _ :: r => a :: mask_rows r
  | _ => []
  end.

(** The targets whose row of [target_unobserved] is [True], in index order. *)
Definition unobserved_targets (m : list bool) (tx : list Q) : list (Q * Q) :=
  map fst (filter snd (combine (targets_of tx) (mask_rows m))).

(** Entries [true] in [m1] are [true] in [m2]. *)
Definition mask_le (m1 m2 : list bool) : Prop :=
  Forall2 (fun a b => a = true -> b = true) m1 m2.

(** Shape facts that hold from the first successful [reset] on: [x] has
    [n_agents] rows, [argpartition(r2, range(nearest_agents))] is in range,
    [target_unobserved] has the shape of [target_x] and pair-equal rows. *)
Definition wf_env (e : env) : Prop :=
  length (x e) = n_agents (prm e) /\
  (n_agents (prm e) = O \/ (nearest_agents (prm e) <= n_agents (prm e))%nat) /\
  length (target_unobserved e) = length (target_x e) /\
  pairs_eqb (target_unobserved e) = true.

(** A numpy array: as many entries as its shape says. *)
Definition wf_arr (c : ndarray) : Prop := length (data c) = fold_right Nat.mul 1%nat (shape c).

Definition is_raise {A} (r : exc + A) : bool := match r with inl _ => true | inr _ => false end.

(** Number of entries equal to [1.0] in a row of [adj_mat]. *)
Definition row_ones (row : list Q) : nat := count_true (map (fun a => Qeq_bool a 1) row).

(** ** Concrete scenarios *)

Definition stream_of (l : list Q) : nat -> Q := fun k => nth k l (1 # 2).

(** Three agents, one nearest neighbour, two nearest targets. *)
Definition cfg3 : cfg := mkCfg 3 1 2 10 1 5 (1 # 10).

(** Draws putting the agents at rest at [(0,0)], [(1,0)], [(2.5,0)]. *)
Definition g_line : gstate := mkG (stream_of [1 # 2; 2 # 3; 11 # 12]) 0.

Definition w_line : world := run_ops [OpCfg cfg3; OpReset] (init_env 0, g_line).

(** Two agents asked for three nearest neighbours. *)
Definition cfg_sat : cfg := mkCfg 2 3 4 10 1 5 (1 # 10).

(** A global generator whose consecutive draws differ. *)
Definition g_cycle : gstate := mkG (fun k => Qofnat (Nat.modulo k 5) / 5) 0.

(** One agent, one target at [(-1,-1)]; radius 2 sees it, radius 1/2 not. *)
Definition cfg1 (nt : nat) (rad : Q) : cfg := mkCfg 1 1 nt 10 rad 5 (1 # 10).

Definition g_half : gstate := mkG (fun _ => 1 # 2) 0.

Definition cmd1 : ndarray := mkArr [1; 2]%nat [1 # 2; -1].

(** One agent at rest at the origin after [reset], the target seen. *)
Definition w_one : world := run_ops [OpCfg (cfg1 1 2); OpReset] (init_env 0, g_half).

(** The value of a call that returned, [d] for one that raised. *)
Definition ok_of {A} (d : A) (r : exc + A) : A := match r with inr a => a | inl _ => d end.

Definition no_step_result : step_result := (([], []), [], false).

(** One agent, first configured: the state before [reset]. *)
Definition w_cfg1 : world := run_ops [OpCfg (cfg1 1 2)] (init_env 0, g_half).

(** A command of the wrong shape for one agent. *)
Definition cmd_bad : ndarray := mkArr [2; 2]%nat [1; 0; 0; 1].

(** One agent, one target just out of reach of [obs_rad = 1.4]. *)
Definition w_near : world := run_ops [OpCfg (cfg1 1 (7 # 5)); OpReset] (init_env 0, g_half).

(** Full acceleration towards the target at [(-1, -1)]. *)
Definition cmd_toward : ndarray := mkArr [1; 2]%nat [-1; -1].

(** One agent, one target, [nearest_targets = 3]. *)
Definition w_three : world := run_ops [OpCfg (cfg1 3 (1 # 2)); OpReset] (init_env 0, g_half).

(** ** Helpers of the proofs *)

(** Both rows of a flat mask written from one boolean per target. *)
Definition dup (os : list bool) : list bool := concat (map (fun o => [o; o]) os).

(** Shape of [target_unobserved] kept by every method. *)
Definition mask_inv (e : env) : Prop :=
  pairs_eqb (target_unobserved e) = true /\
  length (target_unobserved e) = (2 * (n_agents (prm e) * n_agents (prm e)))%nat.

(** Order of [argsort]: the key of [p] is not above the key of [q]. *)
Definition key_le (p q : xreal * nat) : Prop := xltb (fst q) (fst p) = false.

(** ** Further notions *)

(** An [r x c] matrix: [r] rows of [c] entries each. *)
Definition is_matrix {A} (r c : nat) (m : list (list A)) : Prop :=
  length m = r /\ Forall (fun row => length row = c) m.

(** [n_features] as [__init__] and [params_from_cfg] set it. *)
Definition nfeat_inv (e : env) : Prop :=
  n_features (prm e) = (2 + 4 * nearest_agents (prm e) + 2 * nearest_targets (prm e))%nat.

(** Both velocity components of an agent lie in [[-vm, vm]]. *)
Definition vel_bounded (vm : Q) (a : agent) : Prop :=
  - vm <= vx a <= vm /\ - vm <= vy a <= vm.

(** [controller]: [self.greedy_action / self.action_scalar], on the
    [greedy_action] set by [compute_helpers]. *)
Definition controller (e : env) : list (list Q) :=
  map (map (fun q => q / action_scalar (prm e))) (greedy_action (hlp e)).

(** Operations other than [params_from_cfg]. *)
Definition not_cfg (o : op) : bool := match o with OpCfg _ => false | _ => true end.

(** * Proofs *)

(** ** Lists of pairs *)

Lemma list_pair_ind {A} (P : list A -> Prop) (H0 : P []) (H1 : forall a, P [a])
      (H2 : forall a b r, P r -> P (a :: b :: r)) : forall l, P l.
Proof.
  fix IH 1. intros [|a [|b r]].
  - exact H0.
  - apply H1.
  - apply H2, IH.
Qed.

Lemma mask_le_refl m : mask_le m m.
Proof. induction m; constructor; auto. Qed.

Lemma mask_le_trans m1 m2 m3 : mask_le m1 m2 -> mask_le m2 m3 -> mask_le m1 m3.
Proof.
  intros H12. revert m3. induction H12 as [|a b l1 l2 Hab _ IH]; intros m3 H23.
  - inversion H23. constructor.
  - inversion H23 as [|? c ? l3 Hbc H23']; subst. constructor; auto.
    apply IH. exact H23'.
Qed.

Lemma count_true_mono m1 m2 : mask_le m1 m2 -> (count_true m1 <= count_true m2)%nat.
Proof.
  induction 1 as [|a b l1 l2 Hab _ IH]; simpl; [lia|].
  destruct a, b; simpl; try lia.
Qed.

Lemma bool_assign_le m vals : mask_le (bool_assign m vals) m.
Proof.
  revert vals. induction m as [|b m IH]; intros vals; [constructor|].
  destruct b, vals as [|v vals]; simpl; constructor; auto; apply IH.
Qed.

Lemma bool_assign_length m vals : length (bool_assign m vals) = length m.
Proof.
  revert vals. induction m as [|[|] m IH]; intros [|v vals]; simpl; auto.
Qed.

Lemma bool_assign_pairs m os :
  pairs_eqb m = true -> pairs_eqb (bool_assign m (dup os)) = true.
Proof.
  revert os. induction m as [|a|a b r IH] using list_pair_ind; intros os H; simpl in *.
  - reflexivity.
  - discriminate.
  - apply andb_prop in H as [Hab Hr]. apply Bool.eqb_prop in Hab. subst b.
    destruct a, os as [|o os]; simpl.
    + apply (IH [] Hr).
    + rewrite Bool.eqb_reflx. apply (IH os Hr).
    + apply (IH [] Hr).
    + apply (IH (o :: os) Hr).
Qed.

Lemma pairs_count m : pairs_eqb m = true -> count_true m = (2 * count_true (mask_rows m))%nat.
Proof.
  induction m as [|a|a b r IH] using list_pair_ind; intros H; simpl in *.
  - reflexivity.
  - discriminate.
  - apply andb_prop in H as [Hab Hr]. apply Bool.eqb_prop in Hab. subst b.
    rewrite (IH Hr). destruct a; lia.
Qed.

Lemma reshape_bool_index m (l : list Q) :
  pairs_eqb m = true -> length m = length l ->
  reshape_pairs (bool_index m l) = Some (unobserved_targets m l).
Proof.
  revert l. induction m as [|a|a b r IH] using list_pair_ind; intros l H Hlen; simpl in *.
  - destruct l; [reflexivity|discriminate].
  - discriminate.
  - apply andb_prop in H as [Hab Hr]. apply Bool.eqb_prop in Hab. subst b.
    destruct l as [|a' [|b' l]]; simpl in Hlen; try discriminate.
    injection Hlen as Hlen. unfold unobserved_targets in *. destruct a; simpl.
    + rewrite (IH l Hr Hlen). reflexivity.
    + apply (IH l Hr Hlen).
Qed.

Lemma unobserved_targets_length m (l : list Q) :
  length m = length l -> length (unobserved_targets m l) = count_true (mask_rows m).
Proof.
  revert l. induction m as [|a|a b r IH] using list_pair_ind; intros l Hlen.
  - destruct l; [reflexivity|discriminate].
  - destruct l as [|? [|]]; simpl in Hlen; try discriminate. reflexivity.
  - destruct l as [|a' [|b' l]]; simpl in Hlen; try discriminate.
    injection Hlen as Hlen. unfold unobserved_targets in *. simpl.
    destruct a; simpl; rewrite (IH l Hlen); reflexivity.
Qed.

Lemma length_dup os : length (dup os) = (2 * length os)%nat.
Proof. induction os; simpl; [reflexivity|]. unfold dup in *. simpl. lia. Qed.

Lemma dup_negb (l : list bool) :
  concat (map (fun o => [negb o; negb o]) l) = dup (map negb l).
Proof. unfold dup. rewrite map_map. reflexivity. Qed.

Lemma length_mapi {A B} (f : nat -> A -> B) l : length (mapi f l) = length l.
Proof.
  unfold mapi. rewrite length_map, length_combine, length_seq. lia.
Qed.

(** ** Running the methods symbolically *)

(** Case on the next [if], [option] or [compute_helpers] result in [H]. *)
Ltac split_in H :=
  match type of H with
  | context [if ?c then _ else _] => destruct c eqn:?
  | context [match ?t with Some _ => _ | None => _ end] => destruct t eqn:?
  | context [match ?t with inl _ => _ | inr _ => _ end] => destruct t eqn:?
  | context [match compute_helpers ?w with (_, _) => _ end] =>
      let r := fresh "r" in let e := fresh "e" in let g := fresh "g" in
      destruct (compute_helpers w) as [r [e g]] eqn:?
  end; simpl in H.

Ltac split_goal :=
  match goal with
  | |- context [if ?c then _ else _] => destruct c eqn:?
  | |- context [match ?t with Some _ => _ | None => _ end] => destruct t eqn:?
  | |- context [match ?t with inl _ => _ | inr _ => _ end] => destruct t eqn:?
  end; simpl.

Ltac unfold_monad H :=
  cbv [bind get_self put_self get_global put_global np_uniform lift_opt ret raise] in H;
  simpl in H.

Lemma compute_helpers_effect e g r e' g' :
  compute_helpers (e, g) = (r, (e', g')) ->
  g' = g /\ prm e' = prm e /\ x e' = x e /\ target_x e' = target_x e /\
  np_random e' = np_random e /\ u e' = u e /\
  (target_unobserved e' = target_unobserved e \/
   exists os, target_unobserved e' = bool_assign (target_unobserved e) (dup os)).
Proof.
  intros H. unfold compute_helpers in H. unfold_monad H.
  repeat split_in H.
  all: try (injection H as <- <- <-; simpl; repeat split; auto; fail).
  all: match goal with
       | Ho : bool_assign_checked _ _ = Some _ |- _ =>
           unfold bool_assign_checked in Ho;
           destruct (Nat.eqb _ _) in Ho; [injection Ho as <-|discriminate]
       end.
  all: injection H as <- <- <-; simpl; repeat split; auto.
  all: right; rewrite dup_negb; eexists; reflexivity.
Qed.

Lemma step_effect c e g r e' g' :
  step c (e, g) = (r, (e', g')) ->
  g' = g /\ prm e' = prm e /\ target_x e' = target_x e /\ np_random e' = np_random e /\
  (target_unobserved e' = target_unobserved e \/
   exists os, target_unobserved e' = bool_assign (target_unobserved e) (dup os)).
Proof.
  intros H. unfold step in H. unfold_monad H.
  repeat split_in H.
  all: try (injection H as <- <- <-; simpl; repeat split; auto; fail).
  all: match goal with
       | Hc : compute_helpers _ = _ |- _ =>
           apply compute_helpers_effect in Hc; simpl in Hc;
           destruct Hc as (Hg & Hp & _ & Ht & Hr & _ & Hm)
       end.
  all: injection H as <- <- <-; repeat split; auto; exact Hm.
Qed.

Lemma reset_effect e g r e' g' :
  reset (e, g) = (r, (e', g')) ->
  prm e' = prm e /\ target_x e' = target_x e /\ np_random e' = np_random e /\
  (target_unobserved e' = ones_mask (n_agents (prm e)) \/
   exists os, target_unobserved e' = bool_assign (ones_mask (n_agents (prm e))) (dup os)).
Proof.
  intros H. unfold reset in H. unfold_monad H.
  repeat split_in H.
  all: match goal with
       | Hc : compute_helpers _ = _ |- _ =>
           apply compute_helpers_effect in Hc; simpl in Hc;
           destruct Hc as (Hg & Hp & _ & Ht & Hr & _ & Hm)
       end.
  all: injection H as <- <- <-; repeat split; auto; exact Hm.
Qed.

Lemma compute_helpers_np_random e s g :
  compute_helpers (set_np_random e s, g) =
  let '(r, (e', g')) := compute_helpers (e, g) in (r, (set_np_random e' s, g')).
Proof.
  destruct e as [p r0 xs us tx m h].
  unfold compute_helpers.
  cbv [bind get_self put_self get_global put_global np_uniform lift_opt ret raise]; simpl.
  repeat split_goal; reflexivity.
Qed.

Lemma reset_np_random e s g :
  reset (set_np_random e s, g) =
  let '(r, (e', g')) := reset (e, g) in (r, (set_np_random e' s, g')).
Proof.
  destruct e as [p r0 xs us tx m h].
  unfold reset.
  cbv [bind get_self put_self get_global put_global np_uniform lift_opt ret raise]; simpl.
  set (e1 := mkEnv _ _ _ _ _ _ _).
  change (set_x (set_mask (set_np_random e1 s) ?M) ?X)
    with (set_np_random (set_x (set_mask e1 M) X) s).
  rewrite compute_helpers_np_random.
  destruct (compute_helpers _) as [[ex|[]] [e' g']]; reflexivity.
Qed.

(** ** C1: the seeded generator is not the one [reset] draws from *)

(** Claim C1.  [reset] never reads [self.np_random], the generator that
    [seed] sets: running it with any other seeded generator gives the same
    result and the same state.  It draws from the process-wide [np.random]
    instead, so two instances built and seeded alike ([seed(0)]) and reset
    one after the other in one process start from different positions. *)
Theorem reset_ignores_seed :
  (forall e s g, reset (set_np_random e s, g) =
                 let '(r, (e', g')) := reset (e, g) in (r, (set_np_random e' s, g'))) /\
  (let e0 := fst (run_ops [OpCfg cfg3; OpSeed 0] (init_env 7, g_cycle)) in
   let w1 := snd (reset (e0, g_cycle)) in
   let w2 := snd (reset (e0, snd w1)) in
   x (fst w1) <> x (fst w2)).
Proof.
  split.
  - apply reset_np_random.
  - vm_compute. intros H. discriminate H.
Qed.

(** ** C2: the adjacency matrix writes whole columns *)

(** Claim C2.  Agents at rest at [(0,0)], [(1,0)], [(2.5,0)] with
    [nearest_agents = 1]: the selections are [1], [0], [1], but
    [self.adj_mat[:, nearest[:, 0]] = 1.0] sets columns [0] and [1] in every
    row, so row 2 holds two ones although [min(1, 3 - 1) = 1], and agent 0,
    which is not agent 2's nearest neighbour, is marked adjacent to it. *)
Theorem adj_mat_row_counterexample :
  let e := fst w_line in
  traverse_opt (argpartition_range (nearest_agents (prm e))) (mapi (r2_row (x e)) (x e))
    = Some [[1%nat]; [0%nat]; [1%nat]] /\
  adj_mat (hlp e) = [[0; 1; 0]; [1; 0; 0]; [1; 1; 0]] /\
  row_ones (nth 2 (adj_mat (hlp e)) []) = 2%nat /\
  Nat.min (nearest_agents (prm e)) (n_agents (prm e) - 1) = 1%nat.
Proof. vm_compute. repeat split. Qed.

(** ** C9: more neighbours asked for than there are agents *)

(** Claim C9.  With two agents and [nearest_agents = 3],
    [np.argpartition(self.r2, range(3), axis=1)] gets [kth = 2] out of
    bounds and raises [ValueError]: [reset] (and so every step) fails,
    where the target selection guards the same case with [np.argsort]. *)
Theorem nearest_agents_saturation_raises :
  fst (reset (fst (run_ops [OpCfg cfg_sat] (init_env 0, g_half)), g_half)) = inl ValueError.
Proof. vm_compute. reflexivity. Qed.

(** ** C3: the unobserved-target mask only loses entries *)

Lemma step_mask_le c w :
  mask_le (target_unobserved (fst (snd (step c w)))) (target_unobserved (fst w)).
Proof.
  destruct w as [e g]. destruct (step c (e, g)) as [r [e' g']] eqn:H. simpl.
  apply step_effect in H as (_ & _ & _ & _ & [-> | [os ->]]).
  - apply mask_le_refl.
  - apply bool_assign_le.
Qed.

(** Claim C3.  After any sequence [cs] of [step] calls, one more call
    [step(c)] only turns entries of [target_unobserved] from [True] to
    [False], never back, so [np.sum(self.target_unobserved)] does not grow;
    [step] has no path that sets an entry to [True]. *)
Theorem mask_monotone_over_steps (w : world) (cs : list ndarray) (c : ndarray) :
  let m0 := target_unobserved (fst (run_steps cs w)) in
  let m1 := target_unobserved (fst (run_steps (cs ++ [c]) w)) in
  mask_le m1 m0 /\ (count_true m1 <= count_true m0)%nat.
Proof.
  unfold run_steps. rewrite fold_left_app. simpl.
  set (w0 := fold_left _ cs w).
  pose proof (step_mask_le c w0) as Hle.
  split; [exact Hle | apply count_true_mono, Hle].
Qed.

(** ** C10: both entries of a target's mask row agree *)

Lemma ones_mask_pairs n : pairs_eqb (ones_mask n) = true.
Proof.
  unfold ones_mask. induction (n * n)%nat as [|k IH]; [reflexivity|].
  replace (2 * S k)%nat with (S (S (2 * k))) by lia. simpl. exact IH.
Qed.

Lemma mask_update_inv m os n :
  pairs_eqb m = true -> length m = n ->
  pairs_eqb (bool_assign m (dup os)) = true /\ length (bool_assign m (dup os)) = n.
Proof.
  intros Hp Hl. split; [apply bool_assign_pairs, Hp | rewrite bool_assign_length; exact Hl].
Qed.

Lemma run_op_mask_inv o w : mask_inv (fst w) -> mask_inv (fst (run_op o w)).
Proof.
  destruct w as [e g]. intros [Hp Hl]. destruct o as [a|s| |c]; simpl.
  - unfold params_from_cfg, mask_inv. cbv [bind get_self put_self ret]. simpl.
    split; [apply ones_mask_pairs | unfold ones_mask; rewrite repeat_length; reflexivity].
  - unfold seed, mask_inv. cbv [bind get_self put_self ret]. simpl.
    split; assumption.
  - destruct (reset (e, g)) as [r [e' g']] eqn:H. simpl.
    apply reset_effect in H as (Hprm & _ & _ & [Hm | [os Hm]]);
      unfold mask_inv; rewrite Hm, Hprm.
    + split; [apply ones_mask_pairs | unfold ones_mask; rewrite repeat_length; reflexivity].
    + apply mask_update_inv; [apply ones_mask_pairs | unfold ones_mask; apply repeat_length].
  - destruct (step c (e, g)) as [r [e' g']] eqn:H. simpl.
    apply step_effect in H as (_ & Hprm & _ & _ & [Hm | [os Hm]]);
      unfold mask_inv; rewrite Hm, Hprm.
    + split; assumption.
    + apply mask_update_inv; assumption.
Qed.

(** Claim C10.  From construction on, through any sequence of
    [params_from_cfg], [seed], [reset] and [step] calls,
    [target_unobserved] is an [n_agents^2 x 2] array whose two entries in
    each target row are equal; hence it selects an even number of entries of
    [target_x], a whole number of [(x, y)] pairs. *)
Theorem mask_rows_pair_equal (s0 : Z) (g : gstate) (os : list op) :
  let e := fst (run_ops os (init_env s0, g)) in
  pairs_eqb (target_unobserved e) = true /\
  length (target_unobserved e) = (2 * (n_agents (prm e) * n_agents (prm e)))%nat /\
  Nat.even (count_true (target_unobserved e)) = true.
Proof.
  assert (Hinv : mask_inv (fst (run_ops os (init_env s0, g)))).
  { assert (Hinit : mask_inv (fst (init_env s0, g))).
    { split; vm_compute; reflexivity. }
    unfold run_ops. revert Hinit. generalize (init_env s0, g) as w.
    induction os as [|o os IH]; intros w Hw; simpl; [exact Hw|].
    apply IH, run_op_mask_inv, Hw. }
  destruct Hinv as [Hp Hl]. simpl. split; [exact Hp|]. split; [exact Hl|].
  rewrite (pairs_count _ Hp), Nat.even_mul. reflexivity.
Qed.

(** ** C4: [done] *)

Lemma run_steps_mask_le cs w :
  mask_le (target_unobserved (fst (run_steps cs w))) (target_unobserved (fst w)).
Proof.
  unfold run_steps. revert w. induction cs as [|c cs IH]; intros w; simpl.
  - apply mask_le_refl.
  - eapply mask_le_trans; [apply IH | apply step_mask_le].
Qed.

Lemma step_done c w r w' :
  step c w = (inr r, w') -> snd r = Nat.eqb 0 (count_true (target_unobserved (fst w'))).
Proof.
  destruct w as [e g]. intros H. unfold step in H. unfold_monad H.
  repeat split_in H; try discriminate.
  all: injection H as <- <-; simpl.
  all: match goal with Hn : count_true _ = _ |- _ => rewrite Hn; reflexivity end.
Qed.

(** Claim C4.  [done] returned by a [step] is [True] exactly when no entry
    of [target_unobserved] is [True] after that step's update, and once a
    step has returned [done = True], every later step of the same instance
    (any steps [cs] in between, no [reset]) returns [done = True]. *)
Theorem done_exact_and_absorbing w c r w' cs c' r' w'' :
  step c w = (inr r, w') ->
  step c' (run_steps cs w') = (inr r', w'') ->
  snd r = Nat.eqb 0 (count_true (target_unobserved (fst w'))) /\
  (snd r = true -> snd r' = true).
Proof.
  intros H1 H2. split; [apply (step_done _ _ _ _ H1)|].
  intros Hd. rewrite (step_done _ _ _ _ H1) in Hd.
  apply Nat.eqb_eq in Hd.
  rewrite (step_done _ _ _ _ H2).
  pose proof (count_true_mono _ _ (run_steps_mask_le cs w')) as Hc1.
  pose proof (step_mask_le c' (run_steps cs w')) as Hle.
  rewrite H2 in Hle. simpl in Hle.
  apply count_true_mono in Hle. apply Nat.eqb_eq. lia.
Qed.

Lemma done_exact_and_absorbing_witness :
  let r := ok_of no_step_result (fst (step cmd1 w_one)) in
  let w' := snd (step cmd1 w_one) in
  let r' := ok_of no_step_result (fst (step cmd1 (run_steps [] w'))) in
  let w'' := snd (step cmd1 (run_steps [] w')) in
  step cmd1 w_one = (inr r, w') /\ step cmd1 (run_steps [] w') = (inr r', w'') /\
  snd r = true /\ snd r' = true.
Proof.
  intros r w' r' w''.
  assert (H1 : step cmd1 w_one = (inr r, w')) by (vm_compute; reflexivity).
  assert (H2 : step cmd1 (run_steps [] w') = (inr r', w'')) by (vm_compute; reflexivity).
  pose proof (done_exact_and_absorbing _ _ _ _ [] _ _ _ H1 H2) as [Hd Habs].
  assert (Hr : snd r = true) by (rewrite Hd; vm_compute; reflexivity).
  split; [exact H1|]. split; [exact H2|]. split; [exact Hr|]. exact (Habs Hr).
Defined.

(** ** C8: kinematics *)

Lemma reshape_pairs_some {A} (l : list A) n :
  length l = (2 * n)%nat -> exists us, reshape_pairs l = Some us /\ length us = n.
Proof.
  revert n. induction l as [|a|a b r IH] using list_pair_ind; intros n Hl; simpl in *.
  - exists []. split; [reflexivity|simpl; lia].
  - lia.
  - destruct n as [|n]; [lia|].
    destruct (IH n) as [us [Hus Hlen]]; [lia|].
    exists ((a, b) :: us). rewrite Hus. split; [reflexivity|simpl; lia].
Qed.

Lemma reshape_pairs_nth {A} (l : list A) us d i :
  reshape_pairs l = Some us -> nth i us (d, d) = (nth (2 * i) l d, nth (S (2 * i)) l d).
Proof.
  revert us i. induction l as [|a|a b r IH] using list_pair_ind; intros us i H; simpl in H.
  - injection H as <-. destruct i; reflexivity.
  - discriminate.
  - destruct (reshape_pairs r) as [us'|] eqn:Hr; simpl in H; [|discriminate].
    injection H as <-. destruct i as [|i]; [reflexivity|].
    replace (2 * S i)%nat with (S (S (2 * i))) by lia. simpl. apply IH; reflexivity.
Qed.

Lemma nth_map_lt {A B} (f : A -> B) (l : list A) j d d' :
  (j < length l)%nat -> nth j (map f l) d = f (nth j l d').
Proof. intros Hj. rewrite (nth_indep _ d (f d')) by (rewrite length_map; exact Hj). apply map_nth. Qed.

Lemma clip_compat lo lo' hi hi' v v' :
  lo == lo' -> hi == hi' -> v == v' -> clip lo hi v == clip lo' hi' v'.
Proof.
  intros Hlo Hhi Hv. unfold clip. rewrite Hlo, Hhi, Hv. reflexivity.
Qed.

Lemma step_x c e g us :
  list_eqb (shape c) [n_agents (prm e); 2%nat] = true ->
  reshape_pairs (map (fun a => a * action_scalar (prm e))
                   (map (clip (- max_accel (prm e)) (max_accel (prm e))) (data c))) = Some us ->
  length (x e) = n_agents (prm e) ->
  x (fst (snd (step c (e, g)))) = map (fun xa => integrate (prm e) (fst xa) (snd xa)) (combine (x e) us).
Proof.
  intros Hs Hus Hl. unfold step.
  cbv [bind get_self put_self get_global put_global np_uniform lift_opt ret raise]. simpl.
  rewrite Hs, Hus. simpl. rewrite Hl, Nat.eqb_refl. simpl.
  destruct (compute_helpers _) as [r [e' g']] eqn:Hc.
  apply compute_helpers_effect in Hc as (_ & _ & Hx & _). simpl in Hx.
  destruct r; simpl; exact Hx.
Qed.

(** Claim C8.  A [step] with a command [u] of shape [(n_agents, 2)], on a
    state with [n_agents] agents, moves agent [i] by
    [accel = clip(u[i], -max_accel, max_accel) * action_scalar],
    [position + velocity * dt + 0.5 * accel * dt^2] with the velocity before
    the step, and [velocity = clip(velocity + accel * dt, -v_max, v_max)].
    The new kinematics are kept even when the later [compute_helpers] raises. *)
Theorem step_kinematics (e : env) (g : gstate) (c : ndarray) (i : nat)
    (Hshape : shape c = [n_agents (prm e); 2%nat]) (Harr : wf_arr c)
    (Hx : length (x e) = n_agents (prm e)) (Hi : (i < n_agents (prm e))%nat) :
  let p := prm e in
  let a := nth i (x e) zero_agent in
  let a' := nth i (x (fst (snd (step c (e, g))))) zero_agent in
  let ax := clip (- max_accel p) (max_accel p) (nth (2 * i) (data c) 0) * action_scalar p in
  let ay := clip (- max_accel p) (max_accel p) (nth (S (2 * i)) (data c) 0) * action_scalar p in
  px a' == px a + vx a * dt p + (1 # 2) * ax * dt p ^ 2 /\
  py a' == py a + vy a * dt p + (1 # 2) * ay * dt p ^ 2 /\
  vx a' == clip (- v_max p) (v_max p) (vx a + ax * dt p) /\
  vy a' == clip (- v_max p) (v_max p) (vy a + ay * dt p).
Proof.
  intros p a a' ax ay.
  set (n := n_agents (prm e)) in *.
  set (sc := map (fun q => q * action_scalar p) (map (clip (- max_accel p) (max_accel p)) (data c))).
  assert (Hlen : length sc = (2 * n)%nat).
  { unfold sc, wf_arr in *. rewrite !length_map, Harr, Hshape. simpl. lia. }
  destruct (reshape_pairs_some sc n Hlen) as [us [Hus Hlus]].
  assert (Hs : list_eqb (shape c) [n_agents (prm e); 2%nat] = true).
  { rewrite Hshape. unfold list_eqb.
    destruct list_eq_dec as [_|Hne]; [reflexivity|exfalso; apply Hne; reflexivity]. }
  unfold a'. rewrite (step_x c e g us Hs Hus Hx).
  set (f := fun xa : agent * (Q * Q) => integrate (prm e) (fst xa) (snd xa)).
  rewrite (nth_indep _ zero_agent (f (zero_agent, (0, 0))))
    by (rewrite length_map, length_combine; lia).
  rewrite map_nth, combine_nth by lia.
  rewrite (reshape_pairs_nth sc us 0 i Hus).
  assert (Hsc : forall j, (j < 2 * n)%nat -> nth j sc 0 =
            clip (- max_accel p) (max_accel p) (nth j (data c) 0) * action_scalar p).
  { intros j Hj. unfold wf_arr in Harr. rewrite Hshape in Harr. simpl in Harr. unfold sc.
    rewrite (nth_map_lt _ _ _ 0 0) by (rewrite length_map; lia).
    rewrite (nth_map_lt _ _ _ 0 0) by lia. reflexivity. }
  rewrite !Hsc by lia. fold ax ay. fold a.
  unfold f, integrate. cbn [fst snd px py vx vy]. unfold p.
  repeat split; try ring; apply clip_compat; try reflexivity; ring.
Qed.

Lemma step_kinematics_witness :
  let e := fst w_line in
  shape (mkArr [3; 2]%nat [1; 0; -3; 1 # 2; 0; 0]) = [n_agents (prm e); 2%nat] /\
  wf_arr (mkArr [3; 2]%nat [1; 0; -3; 1 # 2; 0; 0]) /\
  length (x e) = n_agents (prm e) /\ (1 < n_agents (prm e))%nat /\
  px (nth 1 (x (fst (snd (step (mkArr [3; 2]%nat [1; 0; -3; 1 # 2; 0; 0]) (e, snd w_line)))))
          zero_agent) == 1 + 0 * (1 # 10) + (1 # 2) * (-10) * (1 # 10) ^ 2.
Proof.
  intros e.
  assert (H1 : shape (mkArr [3; 2]%nat [1; 0; -3; 1 # 2; 0; 0]) = [n_agents (prm e); 2%nat])
    by (vm_compute; reflexivity).
  assert (H2 : wf_arr (mkArr [3; 2]%nat [1; 0; -3; 1 # 2; 0; 0])) by (vm_compute; reflexivity).
  assert (H3 : length (x e) = n_agents (prm e)) by (vm_compute; reflexivity).
  assert (H4 : (1 < n_agents (prm e))%nat) by (vm_compute; lia).
  split; [exact H1|]. split; [exact H2|]. split; [exact H3|]. split; [exact H4|].
  destruct (step_kinematics e (snd w_line) _ 1 H1 H2 H3 H4) as [Hpx _].
  rewrite Hpx. vm_compute. reflexivity.
Defined.

(** ** Success of [compute_helpers] and [step] on well-formed states *)

Lemma traverse_argpartition_some k rows :
  Forall (fun r => (k <= length r)%nat) rows ->
  exists ns, traverse_opt (argpartition_range k) rows = Some ns /\ length ns = length rows.
Proof.
  induction 1 as [|r rows Hr _ [ns [Hns Hl]]].
  - exists []. split; reflexivity.
  - exists (firstn k (argsort r) :: ns). simpl. rewrite Hns.
    unfold argpartition_range at 1.
    destruct (Nat.ltb_spec (length r) k) as [Hlt|_]; [lia|].
    split; [reflexivity|simpl; lia].
Qed.

Lemma traverse_argpartition_map_some {A} k (h : A -> list xreal) rows :
  Forall (fun r => (k <= length (h r))%nat) rows ->
  exists ns, traverse_opt (fun r => argpartition_range k (h r)) rows = Some ns.
Proof.
  induction 1 as [|r rows Hr _ [ns Hns]].
  - exists []. reflexivity.
  - exists (firstn k (argsort (h r)) :: ns). simpl. rewrite Hns.
    unfold argpartition_range at 1.
    destruct (Nat.ltb_spec (length (h r)) k) as [Hlt|_]; [lia|reflexivity].
Qed.

Lemma traverse_argpartition_inv k rows ns :
  traverse_opt (argpartition_range k) rows = Some ns ->
  Forall (fun r => (k <= length r)%nat) rows.
Proof.
  revert ns. induction rows as [|r rows IH]; intros ns H; constructor; simpl in H.
  - unfold argpartition_range in H. destruct (Nat.ltb_spec (length r) k); [discriminate|lia].
  - destruct (argpartition_range k r), (traverse_opt _ rows) eqn:Ht; try discriminate.
    eapply IH; reflexivity.
Qed.

Lemma r2_rows_length xs : Forall (fun r => length r = length xs) (mapi (r2_row xs) xs).
Proof.
  apply Forall_forall. intros r Hr. unfold mapi in Hr. apply in_map_iff in Hr as [[i a] [<- _]].
  simpl. unfold r2_row. apply length_mapi.
Qed.

Lemma bool_index_length {A} m (l : list A) :
  length m = length l -> length (bool_index m l) = count_true m.
Proof.
  revert l. induction m as [|b m IH]; intros [|a l] H; simpl in *; try discriminate; auto.
  destruct b; simpl; rewrite IH; auto.
Qed.

Lemma r2_rows_fit xs k :
  (length xs = O \/ (k <= length xs)%nat) ->
  Forall (fun r => (k <= length r)%nat) (mapi (r2_row xs) xs).
Proof.
  intros [H0 | Hk].
  - destruct xs; [constructor | discriminate].
  - eapply Forall_impl; [|apply r2_rows_length]. simpl. intros r ->. exact Hk.
Qed.

Lemma length_target_rows (xs : list agent) (ts : list (Q * Q)) :
  Forall (fun r => length r = length ts) (map (map r2_of) (map (fun a => map (diff_target a) ts) xs)).
Proof.
  apply Forall_forall. intros r Hr. rewrite map_map in Hr. apply in_map_iff in Hr as [a [<- _]].
  rewrite !length_map. reflexivity.
Qed.

Lemma compute_helpers_ok e g :
  wf_env e ->
  exists e', compute_helpers (e, g) = (inr tt, (e', g)) /\ wf_env e' /\
             prm e' = prm e /\ x e' = x e /\ target_x e' = target_x e.
Proof.
  intros Hwf. pose proof Hwf as (Hx & Hk & Hlm & Hp).
  destruct (compute_helpers (e, g)) as [r [e' g']] eqn:H.
  pose proof (compute_helpers_effect _ _ _ _ _ H) as (-> & Hprm & Hxe & Htx & _).
  exists e'. unfold compute_helpers in H. unfold_monad H.
  repeat split_in H.
  all: try (apply Nat.eqb_neq in Heqb; contradiction).
  all: try match goal with
       | Ht : traverse_opt (argpartition_range _) (mapi (r2_row _) _) = None |- _ =>
           rewrite <- Hx in Hk;
           destruct (traverse_argpartition_some _ _ (r2_rows_fit _ _ Hk)) as [ns [Hns _]];
           rewrite Hns in Ht; discriminate
       end.
  all: try match goal with
       | Hb : bool_index_checked _ _ = None |- _ =>
           unfold bool_index_checked in Hb; rewrite Hlm, Nat.eqb_refl in Hb; discriminate
       end.
  all: match goal with
       | Hb : bool_index_checked _ _ = Some _ |- _ =>
           unfold bool_index_checked in Hb; rewrite Hlm, Nat.eqb_refl in Hb;
           injection Hb as <-
       end.
  all: try (rewrite reshape_bool_index in * by assumption; discriminate).
  all: rewrite reshape_bool_index in * by assumption.
  all: match goal with Hr : Some _ = Some _ |- _ => injection Hr as <- end.
  all: try match goal with
       | Ht : traverse_opt _ (map (map r2_of) _) = None,
         Hlt : (_ <? nearest_targets _) = false |- _ =>
           apply Nat.ltb_ge in Hlt;
           edestruct (traverse_argpartition_map_some (nearest_targets (prm e))
                        (fun row => map XFin row)) as [ns Hns];
           [ eapply Forall_impl; [|apply length_target_rows]; simpl;
             intros row Hrow; rewrite length_map, Hrow; exact Hlt
           | rewrite Hns in Ht; discriminate ]
       end.
  all: match goal with
       | Ha : bool_assign_checked _ _ = _ |- _ =>
           unfold bool_assign_checked in Ha; rewrite dup_negb in Ha;
           rewrite length_dup, !length_map, length_seq in Ha;
           rewrite (unobserved_targets_length _ _ Hlm) in Ha;
           rewrite <- (pairs_count _ Hp), Nat.eqb_refl in Ha
       end.
  all: try discriminate.
  all: match goal with Ha : Some _ = Some _ |- _ => injection Ha as <- end.
  all: injection H as <- <-; simpl.
  all: split; [reflexivity|].
  all: split; [repeat split; simpl; auto|].
  all: try (rewrite bool_assign_length; exact Hlm).
  all: try (apply bool_assign_pairs; exact Hp).
  all: auto.
Qed.


Lemma r2_rows_inv xs k :
  Forall (fun r => (k <= length r)%nat) (mapi (r2_row xs) xs) ->
  length xs = O \/ (k <= length xs)%nat.
Proof.
  intros H. destruct xs as [|a xs']; [left; reflexivity|right].
  pose proof (Forall_forall (fun r => length r = length (a :: xs')) (mapi (r2_row (a :: xs')) (a :: xs'))) as [Hf _].
  specialize (Hf (r2_rows_length _)).
  rewrite Forall_forall in H.
  assert (Hin : In (r2_row (a :: xs') 0 a) (mapi (r2_row (a :: xs')) (a :: xs'))) by (left; reflexivity).
  rewrite <- (Hf _ Hin). exact (H _ Hin).
Qed.

Lemma bool_assign_pairs_negb m l :
  pairs_eqb m = true ->
  pairs_eqb (bool_assign m (concat (map (fun o => [negb o; negb o]) l))) = true.
Proof. intros Hp. rewrite dup_negb. apply bool_assign_pairs. exact Hp. Qed.

Lemma compute_helpers_wf e g e' g' :
  compute_helpers (e, g) = (inr tt, (e', g')) ->
  pairs_eqb (target_unobserved e) = true -> wf_env e'.
Proof.
  intros H Hp.
  pose proof (compute_helpers_effect _ _ _ _ _ H) as (_ & Hprm & Hxe & Htx & _).
  unfold compute_helpers in H. unfold_monad H.
  repeat split_in H; try discriminate.
  all: match goal with
       | Ho : bool_assign_checked _ _ = Some _ |- _ =>
           unfold bool_assign_checked in Ho;
           destruct (Nat.eqb _ _) in Ho; [injection Ho as <-|discriminate]
       end.
  all: injection H as <- <-.
  all: apply Nat.eqb_eq in Heqb.
  all: match goal with
       | Ht : traverse_opt (argpartition_range _) (mapi (r2_row _) _) = Some _ |- _ =>
           apply traverse_argpartition_inv, r2_rows_inv in Ht
       end.
  all: match goal with
       | Hb : bool_index_checked _ _ = Some _ |- _ =>
           unfold bool_index_checked in Hb; destruct (Nat.eqb_spec (length (target_unobserved e)) (length (target_x e))) as [Hl|]; [|discriminate]
       end.
  all: unfold wf_env; simpl; repeat split.
  all: try (rewrite <- Heqb; assumption).
  all: try assumption.
  all: try (rewrite bool_assign_length; exact Hl).
  all: apply bool_assign_pairs_negb; exact Hp.
Qed.

Lemma reset_wf w o w' :
  reset w = (inr o, w') -> wf_env (fst w').
Proof.
  destruct w as [e g], w' as [e' g']. intros H. unfold reset in H. unfold_monad H.
  repeat split_in H; try discriminate.
  match goal with
  | Hc : compute_helpers _ = (inr ?t, _) |- _ =>
      destruct t;
      pose proof (compute_helpers_wf _ _ _ _ Hc (ones_mask_pairs _)) as Hw
  end.
  injection H as _ <- <-. exact Hw.
Qed.

Lemma list_eqb_spec l1 l2 : list_eqb l1 l2 = true <-> l1 = l2.
Proof. unfold list_eqb. destruct (list_eq_dec Nat.eq_dec l1 l2); split; congruence. Qed.

Lemma step_bad_shape c w :
  shape c <> [n_agents (prm (fst w)); 2%nat] -> step c w = (inl AssertionError, w).
Proof.
  destruct w as [e g]. intros Hs. unfold step.
  cbv [bind get_self put_self get_global put_global np_uniform lift_opt ret raise]. simpl.
  destruct (list_eqb (shape c) _) eqn:Hb; [apply list_eqb_spec in Hb; contradiction|reflexivity].
Qed.

Lemma step_total c e g :
  wf_env e -> wf_arr c -> shape c = [n_agents (prm e); 2%nat] ->
  exists r e', step c (e, g) = (inr r, (e', g)) /\ wf_env e'.
Proof.
  intros Hwf Harr Hs. pose proof Hwf as (Hx & Hk & Hlm & Hp).
  unfold wf_arr in Harr. rewrite Hs in Harr. simpl in Harr.
  destruct (reshape_pairs_some (map (fun a => a * action_scalar (prm e))
              (map (clip (- max_accel (prm e)) (max_accel (prm e))) (data c))) (n_agents (prm e)))
    as [us [Hus Hlus]]; [rewrite !length_map; lia|].
  unfold step. cbv [bind get_self put_self get_global put_global np_uniform lift_opt ret raise]. simpl.
  rewrite (proj2 (list_eqb_spec _ _) Hs), Hus. simpl. rewrite Hx, Nat.eqb_refl. simpl.
  set (e2 := set_x (set_u e us) (map (fun xa => integrate (prm e) (fst xa) (snd xa)) (combine (x e) us))).
  assert (Hw2 : wf_env e2).
  { unfold wf_env, e2. simpl. rewrite length_map, length_combine, Hx, Hlus, Nat.min_id.
    repeat split; auto. }
  destruct (compute_helpers_ok e2 g Hw2) as (e3 & Hc & Hw3 & _).
  rewrite Hc. simpl. eexists; eexists; split; [reflexivity|exact Hw3].
Qed.

(** ** C6: the shape check of [step] *)

Lemma run_steps_wf cs w :
  wf_env (fst w) -> Forall wf_arr cs -> wf_env (fst (run_steps cs w)).
Proof.
  unfold run_steps. revert w. induction cs as [|c cs IH]; intros [e g] Hw Hcs; simpl; [exact Hw|].
  inversion Hcs as [|? ? Hc Hcs']; subst.
  apply IH; [|exact Hcs'].
  destruct (list_eq_dec Nat.eq_dec (shape c) [n_agents (prm e); 2%nat]) as [Hs|Hs].
  - destruct (step_total c e g Hw Hc Hs) as (r & e' & Hst & Hw'). rewrite Hst. exact Hw'.
  - rewrite (step_bad_shape c (e, g) Hs). exact Hw.
Qed.

(** Claim C6.  After a [reset] that returned and any sequence of [step]
    calls, [step(u)] raises the [AssertionError] of its shape check, leaving
    the instance as it was, when [u.shape != (n_agents, 2)]; with that shape
    it returns, whatever the entries of [u]. *)
Theorem step_fails_iff_bad_shape (w0 w1 : world) (o : observation) (cs : list ndarray) (c : ndarray) :
  reset w0 = (inr o, w1) -> Forall wf_arr cs -> wf_arr c ->
  let w := run_steps cs w1 in
  (shape c <> [n_agents (prm (fst w)); 2%nat] -> step c w = (inl AssertionError, w)) /\
  (shape c = [n_agents (prm (fst w)); 2%nat] -> exists r w', step c w = (inr r, w')).
Proof.
  intros Hr Hcs Hc w.
  pose proof (run_steps_wf cs w1 (reset_wf _ _ _ Hr) Hcs) as Hw. fold w in Hw.
  split; [apply step_bad_shape|].
  intros Hs. destruct w as [e g] eqn:Hwe. simpl in *.
  destruct (step_total c e g Hw Hc Hs) as (r & e' & Hst & _).
  exists r, (e', g). exact Hst.
Qed.

Lemma step_fails_iff_bad_shape_witness :
  let o := ok_of ([], []) (fst (reset w_cfg1)) in
  let w1 := snd (reset w_cfg1) in
  reset w_cfg1 = (inr o, w1) /\ Forall wf_arr [cmd1] /\ wf_arr cmd_bad /\
  step cmd_bad (run_steps [cmd1] w1) = (inl AssertionError, run_steps [cmd1] w1).
Proof.
  intros o w1.
  assert (H1 : reset w_cfg1 = (inr o, w1)) by (vm_compute; reflexivity).
  assert (H2 : Forall wf_arr [cmd1]) by (constructor; [vm_compute; reflexivity | constructor]).
  assert (H3 : wf_arr cmd_bad) by (vm_compute; reflexivity).
  split; [exact H1|]. split; [exact H2|]. split; [exact H3|].
  destruct (step_fails_iff_bad_shape w_cfg1 w1 o [cmd1] cmd_bad H1 H2 H3) as [Hbad _].
  apply Hbad. vm_compute. discriminate.
Defined.

(** ** C5: the reward *)

Lemma count_true_map_filter {A} (f : A -> bool) l : count_true (map f l) = length (filter f l).
Proof. induction l as [|a l IH]; simpl; [reflexivity|]. destruct (f a); simpl; auto. Qed.

Lemma compute_helpers_nobs e g e' g' :
  compute_helpers (e, g) = (inr tt, (e', g')) ->
  pairs_eqb (target_unobserved e) = true ->
  n_targets_obs_per_agent (hlp e') =
  map (fun a => count_true (map (fun t => Qltb (r2_of (diff_target a t)) (obs_rad2 (prm e)))
                               (unobserved_targets (target_unobserved e) (target_x e)))) (x e).
Proof.
  intros H Hp. unfold compute_helpers in H. unfold_monad H.
  repeat split_in H; try discriminate.
  all: injection H; intros; subst; simpl.
  all: match goal with
       | Hb : bool_index_checked _ _ = Some _ |- _ =>
           unfold bool_index_checked in Hb;
           destruct (Nat.eqb_spec (length (target_unobserved e)) (length (target_x e))) as [Hl|];
           [injection Hb as <-|discriminate]
       end.
  all: rewrite (reshape_bool_index _ _ Hp Hl) in *.
  all: match goal with Hr : Some _ = Some _ |- _ => injection Hr as <- end.
  all: rewrite !map_map; apply map_ext; intros a; rewrite !map_map; reflexivity.
Qed.

Lemma nth_combine_map {A B C} (f : A * B -> C) (l1 : list A) (l2 : list B) i d d1 d2 :
  length l1 = length l2 -> (i < length l1)%nat ->
  nth i (map f (combine l1 l2)) d = f (nth i l1 d1, nth i l2 d2).
Proof.
  intros Hl Hi. rewrite (nth_map_lt _ _ _ _ (d1, d2)) by (rewrite length_combine; lia).
  rewrite combine_nth by exact Hl. reflexivity.
Qed.

Lemma reshape_pairs_length {A} (l : list A) us :
  reshape_pairs l = Some us -> length l = (2 * length us)%nat.
Proof.
  revert us. induction l as [|a|a b r IH] using list_pair_ind; intros us H; simpl in H.
  - injection H as <-. reflexivity.
  - discriminate.
  - destruct (reshape_pairs r) as [us'|] eqn:Hr; [|discriminate].
    injection H as <-. simpl. rewrite (IH us' eq_refl). lia.
Qed.

Lemma step_reward_list c e g r e' g' :
  wf_arr c ->
  step c (e, g) = (inr r, (e', g')) ->
  pairs_eqb (target_unobserved e) = true ->
  length (x e) = n_agents (prm e) /\ length (x e') = n_agents (prm e) /\
  snd (fst r) = reward_of
    (map (fun a => count_true (map (fun t => Qltb (r2_of (diff_target a t)) (obs_rad2 (prm e)))
                                  (unobserved_targets (target_unobserved e) (target_x e)))) (x e'))
    (dist_traveled (x e') (x e)).
Proof.
  intros Harr H Hp. unfold step in H. unfold_monad H.
  repeat split_in H; try discriminate.
  all: match goal with
  | Hc : compute_helpers _ = (inr ?u, _) |- _ =>
      destruct u; pose proof (compute_helpers_nobs _ _ _ _ Hc Hp) as Hn;
      apply compute_helpers_effect in Hc as (_ & Hprm & Hxe & _)
  end.
  all: injection H as Hr He Hg; subst r e' g'; simpl in *.
  all: match goal with
  | Hs : list_eqb _ _ = true, Hl : Nat.eqb (length (x _)) _ = true, Hr : reshape_pairs _ = Some ?us |- _ =>
      apply list_eqb_spec in Hs; apply Nat.eqb_eq in Hl; apply reshape_pairs_length in Hr;
      rewrite !length_map in Hr; unfold wf_arr in Harr; rewrite Hs in Harr; simpl in Harr;
      assert (Hlus : length us = n_agents (prm e)) by lia
  end.
  all: rewrite Hxe, Hn; repeat split; auto.
  all: rewrite length_map, length_combine, Hlus; lia.
Qed.

(** Claim C5.  The reward of agent [i] returned by a [step] is the number
    of targets unobserved when the step began that lie strictly within
    [obs_rad] of the agent's new position, minus [0.1] times the length of
    the agent's displacement in this step. *)
Theorem step_reward (e : env) (g : gstate) (c : ndarray) (r : step_result) (e' : env) (g' : gstate)
    (i : nat) :
  wf_arr c -> pairs_eqb (target_unobserved e) = true ->
  step c (e, g) = (inr r, (e', g')) -> (i < n_agents (prm e))%nat ->
  let a := nth i (x e) zero_agent in
  let a' := nth i (x e') zero_agent in
  length (snd (fst r)) = n_agents (prm e) /\
  nth i (snd (fst r)) 0 =
    Qofnat (length (filter (fun t => Qltb (sq (px a' - fst t) + sq (py a' - snd t)) (obs_rad2 (prm e)))
                           (unobserved_targets (target_unobserved e) (target_x e))))
    - (1 # 10) * qsqrt (sq (px a' - px a) + sq (py a' - py a)).
Proof.
  intros Harr Hp H Hi a a'.
  destruct (step_reward_list _ _ _ _ _ _ Harr H Hp) as (Hl & Hl' & ->).
  unfold reward_of, dist_traveled.
  split.
  - rewrite length_map, length_combine, length_map, length_map, length_combine. lia.
  - rewrite (nth_combine_map _ _ _ _ _ O 0)
      by (rewrite ?length_map, ?length_combine; lia).
    rewrite (nth_map_lt _ _ _ _ zero_agent) by lia.
    rewrite (nth_combine_map _ _ _ _ _ zero_agent zero_agent) by lia.
    rewrite count_true_map_filter. reflexivity.
Qed.

Lemma step_reward_witness :
  let e := fst w_near in
  let g := snd w_near in
  let r := ok_of no_step_result (fst (step cmd_toward w_near)) in
  let e' := fst (snd (step cmd_toward w_near)) in
  let g' := snd (snd (step cmd_toward w_near)) in
  wf_arr cmd_toward /\ pairs_eqb (target_unobserved e) = true /\
  step cmd_toward (e, g) = (inr r, (e', g')) /\ (0 < n_agents (prm e))%nat /\
  nth 0 (snd (fst r)) 0 =
    1 - (1 # 10) * qsqrt (sq (px (nth 0 (x e') zero_agent) - px (nth 0 (x e) zero_agent)) +
                          sq (py (nth 0 (x e') zero_agent) - py (nth 0 (x e) zero_agent))).
Proof.
  intros e g r e' g'.
  assert (H1 : wf_arr cmd_toward) by (vm_compute; reflexivity).
  assert (H2 : pairs_eqb (target_unobserved e) = true) by (vm_compute; reflexivity).
  assert (H3 : step cmd_toward (e, g) = (inr r, (e', g'))) by (vm_compute; reflexivity).
  assert (H4 : (0 < n_agents (prm e))%nat) by (vm_compute; lia).
  split; [exact H1|]. split; [exact H2|]. split; [exact H3|]. split; [exact H4|].
  destruct (step_reward e g cmd_toward r e' g' 0 H1 H2 H3 H4) as [_ Hr].
  rewrite Hr. vm_compute. reflexivity.
Defined.


(** ** C7: the target features *)

Lemma insert_key_perm p l : Permutation (insert_key p l) (p :: l).
Proof.
  induction l as [|q l IH]; simpl; [reflexivity|].
  destruct (xltb (fst p) (fst q)); [reflexivity|].
  rewrite IH. apply perm_swap.
Qed.

Lemma sort_keys_perm l : Permutation (sort_keys l) l.
Proof.
  unfold sort_keys. rewrite <- (app_nil_r l) at 2. generalize (@nil (xreal * nat)) as acc.
  induction l as [|p l IH]; intros acc; simpl; [reflexivity|].
  rewrite IH, insert_key_perm. apply Permutation_sym, Permutation_middle.
Qed.

Lemma xltb_asym a b : xltb a b = true -> xltb b a = false.
Proof.
  destruct a as [p|], b as [q|]; simpl; try discriminate; auto.
  unfold Qltb. intros H. apply negb_true_iff in H.
  apply negb_false_iff. apply Qle_bool_iff.
  apply Qlt_le_weak, Qnot_le_lt. intros Hle. apply Qle_bool_iff in Hle. congruence.
Qed.

Lemma insert_key_hd p q l :
  HdRel key_le q l -> key_le q p -> HdRel key_le q (insert_key p l).
Proof.
  intros Hh Hqp. destruct l as [|r l]; simpl.
  - constructor. exact Hqp.
  - destruct (xltb (fst p) (fst r)); constructor; [exact Hqp|]. inversion Hh; assumption.
Qed.

Lemma insert_key_sorted p l : Sorted key_le l -> Sorted key_le (insert_key p l).
Proof.
  induction l as [|q l IH]; intros Hs; simpl.
  - repeat constructor.
  - destruct (xltb (fst p) (fst q)) eqn:Hpq.
    + constructor; [exact Hs|]. constructor. unfold key_le. apply xltb_asym. exact Hpq.
    + inversion Hs as [|? ? Hs' Hh]; subst. constructor; [apply IH; exact Hs'|].
      apply insert_key_hd; [exact Hh|exact Hpq].
Qed.

Lemma sort_keys_sorted l : Sorted key_le (sort_keys l).
Proof.
  unfold sort_keys. assert (H : Sorted key_le (@nil (xreal * nat))) by constructor.
  revert H. generalize (@nil (xreal * nat)) as acc.
  induction l as [|p l IH]; intros acc Hacc; simpl; [exact Hacc|].
  apply IH, insert_key_sorted, Hacc.
Qed.

Lemma Sorted_map_in {A B} (R : A -> A -> Prop) (R' : B -> B -> Prop) (P : A -> Prop) (f : A -> B) l :
  (forall a b, P a -> P b -> R a b -> R' (f a) (f b)) ->
  Forall P l -> Sorted R l -> Sorted R' (map f l).
Proof.
  intros Hf HP. induction HP as [|a l Ha Hl IH]; intros Hs; simpl; [constructor|].
  inversion Hs as [|? ? Hs' Hh]; subst. constructor; [apply IH; exact Hs'|].
  destruct Hh as [|b l' Hab]; simpl; constructor.
  apply Hf; [exact Ha| |exact Hab]. inversion Hl; assumption.
Qed.

Lemma map_nth_seq {A B} (F : A -> B) (l : list A) d :
  map (fun j => F (nth j l d)) (seq 0 (length l)) = map F l.
Proof.
  induction l as [|a l IH]; simpl; [reflexivity|]. f_equal.
  rewrite <- seq_shift, map_map. exact IH.
Qed.

Lemma map_snd_combine {A B C} (h : B -> C) (l1 : list A) (l2 : list B) :
  length l1 = length l2 -> map (fun p => h (snd p)) (combine l1 l2) = map h l2.
Proof.
  revert l2. induction l1 as [|a l1 IH]; intros [|b l2] Hl; simpl in *; try discriminate; auto.
  f_equal. apply IH. lia.
Qed.

Lemma in_combine_seq {A} (l : list A) p d :
  In p (combine l (seq 0 (length l))) -> (snd p < length l)%nat /\ fst p = nth (snd p) l d.
Proof.
  intros Hin. apply (In_nth _ _ (d, O)) in Hin as [j [Hj Hp]].
  rewrite length_combine, length_seq, Nat.min_id in Hj.
  rewrite combine_nth in Hp by (rewrite length_seq; reflexivity).
  rewrite seq_nth in Hp by exact Hj. subst p. simpl. split; [exact Hj|].
  apply nth_indep. exact Hj.
Qed.

(** The argsort-based row of [obs_target] when fewer than [nt] targets remain. *)
Lemma obs_target_row_sorted (a : agent) (ts : list (Q * Q)) (nt : nat) :
  (length ts < nt)%nat ->
  exists ord, Permutation ord ts /\
    Sorted (fun t1 t2 => r2_of (diff_target a t1) <= r2_of (diff_target a t2)) ord /\
    obs_target_row (map (diff_target a) ts)
                   (argsort (map XFin (map r2_of (map (diff_target a) ts))))
                   (Nat.min nt (length ts)) nt =
    concat (map (fun t => [px a - fst t; py a - snd t]) ord) ++ repeat 0 (2 * (nt - length ts)).
Proof.
  intros Hlt.
  set (keys := map XFin (map r2_of (map (diff_target a) ts))).
  assert (Hkl : length keys = length ts) by (unfold keys; rewrite !length_map; reflexivity).
  set (S := sort_keys (combine keys (seq 0 (length keys)))).
  assert (HP : Forall (fun p => (snd p < length ts)%nat /\
                                 fst p = XFin (r2_of (diff_target a (nth (snd p) ts (0, 0))))) S).
  { apply Forall_forall. intros p Hp.
    apply (Permutation_in _ (sort_keys_perm _)) in Hp.
    apply (in_combine_seq _ _ (XFin 0)) in Hp as [Hj Hk]. rewrite Hkl in Hj.
    split; [exact Hj|]. rewrite Hk. unfold keys.
    rewrite (nth_map_lt _ _ _ _ 0) by (rewrite !length_map; exact Hj).
    rewrite (nth_map_lt _ _ _ _ (0, 0)) by (rewrite length_map; exact Hj).
    rewrite (nth_map_lt _ _ _ _ (0, 0)) by exact Hj. reflexivity. }
  exists (map (fun p => nth (snd p) ts (0, 0)) S).
  split; [|split].
  - eapply Permutation_trans; [apply Permutation_map, sort_keys_perm|].
    rewrite (map_snd_combine (fun j => nth j ts (0, 0))) by (rewrite length_seq; reflexivity).
    rewrite Hkl, (map_nth_seq (fun t => t)), map_id. reflexivity.
  - refine (Sorted_map_in key_le _ _ _ _ _ HP (sort_keys_sorted _)).
    intros p q Hp Hq H.
    destruct Hp as [_ Hp], Hq as [_ Hq]. unfold key_le in H. rewrite Hp, Hq in H.
    simpl in H. unfold Qltb in H. apply negb_false_iff, Qle_bool_iff in H. exact H.
  - unfold obs_target_row. rewrite Nat.min_r by lia. f_equal.
    unfold argsort. fold keys. fold S.
    assert (Hls : length (map snd S) = length ts).
    { unfold S. rewrite length_map, (Permutation_length (sort_keys_perm _)), length_combine, length_seq.
      lia. }
    rewrite <- Hls.
    rewrite (map_nth_seq (fun j => [fst (nth j (map (diff_target a) ts) (0, 0));
                                    snd (nth j (map (diff_target a) ts) (0, 0))])).
    rewrite !map_map. f_equal. apply map_ext_in. intros p Hp.
    rewrite Forall_forall in HP. destruct (HP p Hp) as [Hj _].
    rewrite (nth_map_lt _ _ _ _ (0, 0)) by exact Hj. reflexivity.
Qed.

Lemma length_concat_const {A} (f : nat -> list A) l k :
  (forall j, length (f j) = k) -> length (concat (map f l)) = (k * length l)%nat.
Proof.
  intros Hf. induction l as [|j l IH]; simpl; [lia|]. rewrite length_app, Hf, IH. lia.
Qed.

Lemma length_obs_neigh_row xs a near k : length (obs_neigh_row xs a near k) = (4 * k)%nat.
Proof.
  unfold obs_neigh_row. rewrite (length_concat_const _ _ 4), length_seq; [reflexivity|].
  intros j. destruct (Nat.lt_ge_cases (nth j near O) (length xs)) as [Hj|Hj].
  - rewrite (nth_map_lt _ _ _ _ zero_agent) by exact Hj. reflexivity.
  - rewrite nth_overflow by (rewrite length_map; exact Hj). reflexivity.
Qed.

Lemma skipn_app_exact {A} (l1 l2 : list A) n : length l1 = n -> skipn n (l1 ++ l2) = l2.
Proof. intros <-. induction l1; simpl; auto. Qed.

Lemma nth_map_seq {B} (G : nat -> B) n i d : (i < n)%nat -> nth i (map G (seq 0 n)) d = G i.
Proof.
  intros Hi. rewrite (nth_map_lt _ _ _ _ O) by (rewrite length_seq; exact Hi).
  rewrite seq_nth by exact Hi. reflexivity.
Qed.

Lemma nth_map_enum {A B} (F : nat * A -> B) (l : list A) i d d' :
  (i < length l)%nat -> nth i (map F (combine (seq 0 (length l)) l)) d = F (i, nth i l d').
Proof.
  intros Hi. rewrite (nth_combine_map _ _ _ _ _ O d') by (rewrite length_seq; lia).
  rewrite seq_nth by exact Hi. reflexivity.
Qed.

(** Claim C7.  When [compute_helpers] runs with [m] unobserved targets and
    [m < nearest_targets], the target block of agent [i]'s row of
    [state_values] (after its velocity and the [4 * nearest_agents]
    neighbour entries) is the relative positions [x_i - t] of the [m]
    unobserved targets, ordered by non-decreasing squared distance, followed
    by [nearest_targets - m] zero pairs. *)
Theorem target_block_padding (e : env) (g : gstate) (e' : env) (g' : gstate) (i : nat) :
  compute_helpers (e, g) = (inr tt, (e', g')) ->
  pairs_eqb (target_unobserved e) = true ->
  let ts := unobserved_targets (target_unobserved e) (target_x e) in
  let nt := nearest_targets (prm e) in
  (length ts < nt)%nat ->
  (i < length (x e))%nat ->
  let a := nth i (x e) zero_agent in
  exists ord, Permutation ord ts /\
    Sorted (fun t1 t2 => sq (px a - fst t1) + sq (py a - snd t1) <=
                         sq (px a - fst t2) + sq (py a - snd t2)) ord /\
    skipn (2 + 4 * nearest_agents (prm e)) (nth i (state_values (hlp e')) []) =
    concat (map (fun t => [px a - fst t; py a - snd t]) ord) ++ repeat 0 (2 * (nt - length ts)).
Proof.
  intros H Hp ts nt Hm Hi a.
  unfold compute_helpers in H. unfold_monad H.
  repeat split_in H; try discriminate.
  all: match goal with
       | Hb : bool_index_checked _ _ = Some _ |- _ =>
           unfold bool_index_checked in Hb;
           destruct (Nat.eqb_spec (length (target_unobserved e)) (length (target_x e))) as [Hl|];
           [injection Hb as <-|discriminate]
       end.
  all: rewrite (reshape_bool_index _ _ Hp Hl) in *.
  all: match goal with Hr : Some _ = Some _ |- _ => injection Hr as <- end.
  all: fold ts in H |- *.
  all: try (match goal with Hb : Nat.ltb _ _ = false |- _ =>
              apply Nat.ltb_ge in Hb; unfold nt, ts in Hm; lia end).
  all: injection H; intros; subst; simpl.
  all: rewrite nth_map_seq by exact Hi.
  all: rewrite skipn_app_exact
         by (rewrite (nth_map_enum _ _ _ _ zero_agent) by exact Hi; simpl;
             rewrite length_obs_neigh_row; lia).
  all: rewrite (nth_map_enum _ _ _ _ []) by (rewrite length_map; exact Hi); simpl.
  all: rewrite (nth_map_lt _ _ _ _ zero_agent) by exact Hi.
  all: rewrite (nth_map_lt _ _ _ _ []) by (rewrite !length_map; exact Hi).
  all: rewrite (nth_map_lt _ _ _ _ []) by (rewrite !length_map; exact Hi).
  all: rewrite (nth_map_lt _ _ _ _ zero_agent) by exact Hi.
  all: exact (obs_target_row_sorted a ts nt Hm).
Qed.

Lemma target_block_padding_witness :
  let e := fst w_three in
  let g := snd w_three in
  let e' := fst (snd (compute_helpers (e, g))) in
  let g' := snd (snd (compute_helpers (e, g))) in
  compute_helpers (e, g) = (inr tt, (e', g')) /\
  pairs_eqb (target_unobserved e) = true /\
  unobserved_targets (target_unobserved e) (target_x e) = [(-1, -1)] /\
  nearest_targets (prm e) = 3%nat /\ (0 < length (x e))%nat /\
  skipn (2 + 4 * nearest_agents (prm e)) (nth 0 (state_values (hlp e')) []) =
    [px (nth 0 (x e) zero_agent) - -1; py (nth 0 (x e) zero_agent) - -1; 0; 0; 0; 0].
Proof.
  intros e g e' g'.
  assert (H1 : compute_helpers (e, g) = (inr tt, (e', g'))) by (vm_compute; reflexivity).
  assert (H2 : pairs_eqb (target_unobserved e) = true) by (vm_compute; reflexivity).
  assert (H3 : unobserved_targets (target_unobserved e) (target_x e) = [(-1, -1)])
    by (vm_compute; reflexivity).
  assert (H4 : nearest_targets (prm e) = 3%nat) by (vm_compute; reflexivity).
  assert (H5 : (length (unobserved_targets (target_unobserved e) (target_x e))
                < nearest_targets (prm e))%nat) by (rewrite H3, H4; simpl; lia).
  assert (H6 : (0 < length (x e))%nat) by (vm_compute; lia).
  split; [exact H1|]. split; [exact H2|]. split; [exact H3|]. split; [exact H4|].
  split; [exact H6|].
  destruct (target_block_padding e g e' g' 0 H1 H2 H5 H6) as (ord & Hperm & _ & Hblk).
  rewrite Hblk. rewrite H3 in Hperm |- *. rewrite H4.
  apply Permutation_sym, Permutation_length_1_inv in Hperm. rewrite Hperm. reflexivity.
Defined.

(** * Further properties *)

Lemma length_list_set {A} i (v : A) l : length (list_set i v l) = length l.
Proof. revert i. induction l as [|a l IH]; intros [|i]; simpl; auto. Qed.


Lemma set_columns_matrix cols m r c : is_matrix r c m -> is_matrix r c (set_columns cols m).
Proof.
  unfold set_columns. revert m. induction cols as [|j cols IH]; intros m [Hr Hc]; simpl.
  - split; assumption.
  - apply IH. split; [rewrite length_map; exact Hr|].
    apply Forall_map. eapply Forall_impl; [|exact Hc]. simpl. intros row Hrow.
    rewrite length_list_set. exact Hrow.
Qed.

Lemma build_adj_matrix n k nearest : is_matrix n n (build_adj n k nearest).
Proof.
  unfold build_adj, fill_diagonal.
  assert (H0 : is_matrix n n (repeat (repeat 0 n) n)).
  { split; [apply repeat_length|]. apply Forall_forall. intros row Hrow.
    apply repeat_spec in Hrow. subst row. apply repeat_length. }
  assert (H1 : forall m, is_matrix n n m ->
            is_matrix n n (fold_left (fun m i => set_columns (map (fun row => nth i row O) nearest) m)
                                     (seq 0 k) m)).
  { generalize (seq 0 k). intros l. induction l as [|i l IH]; intros m Hm; simpl; [exact Hm|].
    apply IH, set_columns_matrix, Hm. }
  destruct (H1 _ H0) as [Hr Hc]. split.
  - rewrite length_mapi. exact Hr.
  - apply Forall_forall. intros row Hrow. unfold mapi in Hrow.
    apply in_map_iff in Hrow as [[j r] [<- Hin]]. simpl.
    rewrite length_list_set. apply in_combine_r in Hin. rewrite Forall_forall in Hc. apply Hc, Hin.
Qed.

Lemma mean_normalize_matrix r c m : is_matrix r c m -> is_matrix r c (mean_normalize m).
Proof.
  intros [Hr Hc]. unfold mean_normalize. split; [rewrite length_map; exact Hr|].
  apply Forall_map. eapply Forall_impl; [|exact Hc]. simpl. intros row Hrow.
  rewrite length_map. exact Hrow.
Qed.

Lemma length_obs_target_row drow near n_near nt :
  (n_near <= nt)%nat -> length (obs_target_row drow near n_near nt) = (2 * nt)%nat.
Proof.
  intros H. unfold obs_target_row. rewrite length_app, repeat_length.
  rewrite (length_concat_const _ _ 2), length_seq by reflexivity. lia.
Qed.

Lemma compute_helpers_shape e g e' g' :
  compute_helpers (e, g) = (inr tt, (e', g')) ->
  is_matrix (n_agents (prm e)) (2 + 4 * nearest_agents (prm e) + 2 * nearest_targets (prm e))
            (state_values (hlp e')) /\
  is_matrix (n_agents (prm e)) (n_agents (prm e)) (state_network (hlp e')).
Proof.
  intros H. unfold compute_helpers in H. unfold_monad H.
  repeat split_in H; try discriminate.
  all: injection H; intros; subst; simpl.
  all: apply Nat.eqb_eq in Heqb.
  all: split; [|try apply mean_normalize_matrix; apply build_adj_matrix].
  all: split; [rewrite length_map, length_seq; exact Heqb|].
  all: apply Forall_forall; intros row Hrow; apply in_map_iff in Hrow as [i [<- Hi]];
       apply in_seq in Hi; simpl in Hi.
  all: simpl; rewrite length_app.
  all: rewrite (nth_map_enum _ _ _ _ zero_agent) by lia; simpl; rewrite length_obs_neigh_row.
  all: rewrite (nth_map_enum _ _ _ _ []) by (rewrite length_map; lia); simpl.
  all: rewrite length_obs_target_row by lia.
  all: lia.
Qed.

Lemma reset_decomp e g o w' :
  reset (e, g) = (inr o, w') ->
  exists e1, compute_helpers (e1, mkG (gdraw g) (gpos g + 4 * n_agents (prm e))) = (inr tt, w') /\
    prm e1 = prm e /\ target_x e1 = target_x e /\
    target_unobserved e1 = ones_mask (n_agents (prm e)) /\
    x e1 = zip4
      (map (fun k => - px_max (prm e) + (px_max (prm e) - - px_max (prm e)) * gdraw g (gpos g + k))
           (seq 0 (n_agents (prm e))))
      (map (fun k => - py_max (prm e) + (py_max (prm e) - - py_max (prm e)) *
                     gdraw g (gpos g + n_agents (prm e) + k)) (seq 0 (n_agents (prm e))))
      (map (fun k => - v_max (prm e) + (v_max (prm e) - - v_max (prm e)) *
                     gdraw g (gpos g + n_agents (prm e) + n_agents (prm e) + k)) (seq 0 (n_agents (prm e))))
      (map (fun k => - v_max (prm e) + (v_max (prm e) - - v_max (prm e)) *
                     gdraw g (gpos g + n_agents (prm e) + n_agents (prm e) + n_agents (prm e) + k))
           (seq 0 (n_agents (prm e)))) /\
    o = (state_values (hlp (fst w')), state_network (hlp (fst w'))).
Proof.
  intros H. unfold reset in H. unfold_monad H.
  repeat split_in H; try discriminate.
  match goal with Hc : compute_helpers _ = (inr ?t, _) |- _ => destruct t end.
  injection H as <- <-.
  eexists. split.
  - match goal with Hc : compute_helpers _ = _ |- _ => rewrite <- Hc end.
    f_equal. f_equal. f_equal. lia.
  - simpl. repeat split; reflexivity.
Qed.

Lemma step_decomp c e g r w' :
  step c (e, g) = (inr r, w') ->
  exists us, shape c = [n_agents (prm e); 2%nat] /\
    reshape_pairs (map (fun a => a * action_scalar (prm e))
                     (map (clip (- max_accel (prm e)) (max_accel (prm e))) (data c))) = Some us /\
    length (x e) = n_agents (prm e) /\
    compute_helpers (set_x (set_u e us) (map (fun xa => integrate (prm e) (fst xa) (snd xa))
                                             (combine (x e) us)), g) = (inr tt, w') /\
    r = ((state_values (hlp (fst w')), state_network (hlp (fst w'))),
         reward_of (n_targets_obs_per_agent (hlp (fst w'))) (dist_traveled (x (fst w')) (x e)),
         Nat.eqb 0 (count_true (target_unobserved (fst w')))).
Proof.
  intros H. unfold step in H. unfold_monad H.
  repeat split_in H; try discriminate.
  all: match goal with Hc : compute_helpers _ = (inr ?t, _) |- _ => destruct t end.
  all: injection H as <- <-.
  all: match goal with Hr : reshape_pairs _ = Some ?us |- _ => exists us end.
  all: apply list_eqb_spec in Heqb; apply Nat.eqb_eq in Heqb0.
  all: repeat split; auto.
  all: simpl; match goal with Hn : count_true _ = _ |- _ => rewrite Hn; reflexivity end.
Qed.


Lemma run_ops_nfeat os s0 g : nfeat_inv (fst (run_ops os (init_env s0, g))).
Proof.
  unfold run_ops. assert (H0 : nfeat_inv (fst (init_env s0, g))) by reflexivity.
  revert H0. generalize (init_env s0, g). induction os as [|o os IH]; intros [e g'] H; simpl; [exact H|].
  apply IH. destruct o as [a|s| |c]; simpl.
  - unfold params_from_cfg. cbv [bind get_self put_self ret]. simpl. reflexivity.
  - unfold seed. cbv [bind get_self put_self ret]. simpl. exact H.
  - destruct (reset (e, g')) as [r [e' g'']] eqn:Hr. apply reset_effect in Hr as (Hp & _).
    unfold nfeat_inv. simpl. rewrite Hp. exact H.
  - destruct (step c (e, g')) as [r [e' g'']] eqn:Hr. apply step_effect in Hr as (_ & Hp & _).
    unfold nfeat_inv. simpl. rewrite Hp. exact H.
Qed.

(** The observation [(state_values, state_network)] returned by [reset]
    has the shapes [(n_agents, n_features)] and [(n_agents, n_agents)]. *)
Theorem reset_observation_shape (s0 : Z) (g : gstate) (os : list op) (o : observation) (w' : world) :
  let w := run_ops os (init_env s0, g) in
  let p := prm (fst w) in
  reset w = (inr o, w') ->
  is_matrix (n_agents p) (n_features p) (fst o) /\ is_matrix (n_agents p) (n_agents p) (snd o).
Proof.
  intros w p H. pose proof (run_ops_nfeat os s0 g) as Hf. fold w in Hf. unfold nfeat_inv in Hf.
  destruct w as [e g1] eqn:Hw. simpl in *.
  destruct (reset_decomp _ _ _ _ H) as (e1 & Hc & Hp & _ & _ & _ & ->).
  destruct w' as [e' g']. apply compute_helpers_shape in Hc. rewrite Hp in Hc.
  unfold p. rewrite Hf. exact Hc.
Qed.

(** The observation returned by [step] has the shapes
    [(n_agents, n_features)] and [(n_agents, n_agents)]. *)
Theorem step_observation_shape (s0 : Z) (g : gstate) (os : list op) (c : ndarray) (r : step_result)
    (w' : world) :
  let w := run_ops os (init_env s0, g) in
  let p := prm (fst w) in
  step c w = (inr r, w') ->
  is_matrix (n_agents p) (n_features p) (fst (fst (fst r))) /\
  is_matrix (n_agents p) (n_agents p) (snd (fst (fst r))).
Proof.
  intros w p H. pose proof (run_ops_nfeat os s0 g) as Hf. fold w in Hf. unfold nfeat_inv in Hf.
  destruct w as [e g1] eqn:Hw. simpl in *.
  destruct (step_decomp _ _ _ _ _ H) as (us & _ & _ & _ & Hc & ->).
  destruct w' as [e' g']. apply compute_helpers_shape in Hc. simpl in Hc |- *.
  unfold p. rewrite Hf. exact Hc.
Qed.

Lemma reset_observation_shape_witness :
  let w := run_ops [OpCfg cfg3] (init_env 0, g_line) in
  let o := ok_of ([], []) (fst (reset w)) in
  reset w = (inr o, snd (reset w)) /\
  is_matrix 3 (n_features (prm (fst w))) (fst o).
Proof.
  intros w o. assert (H : reset w = (inr o, snd (reset w))) by (vm_compute; reflexivity).
  split; [exact H|].
  exact (proj1 (reset_observation_shape 0 g_line [OpCfg cfg3] o _ H)).
Defined.

Lemma step_observation_shape_witness :
  let w := run_ops [OpCfg cfg3; OpReset] (init_env 0, g_line) in
  let c := mkArr [3; 2]%nat [1; 0; -3; 1 # 2; 0; 0] in
  let r := ok_of no_step_result (fst (step c w)) in
  step c w = (inr r, snd (step c w)) /\
  is_matrix 3 (n_features (prm (fst w))) (fst (fst (fst r))).
Proof.
  intros w c r. assert (H : step c w = (inr r, snd (step c w))) by (vm_compute; reflexivity).
  split; [exact H|].
  exact (proj1 (step_observation_shape 0 g_line [OpCfg cfg3; OpReset] c r _ H)).
Defined.

Lemma unobserved_bool_assign m (l : list Q) os :
  pairs_eqb m = true -> length m = length l ->
  length os = length (unobserved_targets m l) ->
  unobserved_targets (bool_assign m (dup os)) l =
  map fst (filter snd (combine (unobserved_targets m l) os)).
Proof.
  revert l os. induction m as [|a|a b r IH] using list_pair_ind; intros l os Hp Hl Hos.
  - destruct l; [reflexivity|discriminate].
  - discriminate.
  - simpl in Hp. apply andb_prop in Hp as [Hab Hr]. apply Bool.eqb_prop in Hab. subst b.
    destruct l as [|x1 [|x2 l]]; simpl in Hl; try discriminate. injection Hl as Hl.
    unfold unobserved_targets in *. destruct a; simpl in *.
    + destruct os as [|o os]; simpl in Hos; [discriminate|]. injection Hos as Hos.
      unfold dup. simpl. fold (dup os).
      destruct o; simpl; rewrite (IH l os Hr Hl Hos); reflexivity.
    + exact (IH l os Hr Hl Hos).
Qed.

Lemma filter_combine_map {A} (h : A -> bool) (ts : list A) :
  map fst (filter snd (combine ts (map h ts))) = filter h ts.
Proof. induction ts as [|t ts IH]; simpl; [reflexivity|]. destruct (h t); simpl; rewrite IH; reflexivity. Qed.

Lemma filter_combine_ext {A} (h : A -> bool) (ts : list A) os :
  os = map h ts -> map fst (filter snd (combine ts os)) = filter h ts.
Proof. intros ->. apply filter_combine_map. Qed.

Lemma existsb_ext' {A} (f g : A -> bool) l : (forall a, f a = g a) -> existsb f l = existsb g l.
Proof. intros H. induction l; simpl; congruence. Qed.

Lemma existsb_map {A B} (f : A -> B) (p : B -> bool) l : existsb p (map f l) = existsb (fun a => p (f a)) l.
Proof. induction l; simpl; congruence. Qed.

(** After [compute_helpers] the unobserved targets are those unobserved
    before that no agent sees strictly within [obs_rad]. *)
Theorem compute_helpers_mask_update e g e' g' :
  compute_helpers (e, g) = (inr tt, (e', g')) ->
  pairs_eqb (target_unobserved e) = true ->
  unobserved_targets (target_unobserved e') (target_x e') =
  filter (fun t => negb (existsb (fun a => Qltb (sq (px a - fst t) + sq (py a - snd t)) (obs_rad2 (prm e)))
                                 (x e)))
         (unobserved_targets (target_unobserved e) (target_x e)).
Proof.
  intros H Hp. unfold compute_helpers in H. unfold_monad H.
  repeat split_in H; try discriminate.
  all: injection H; intros; subst; simpl.
  all: match goal with
       | Hb : bool_index_checked _ _ = Some _ |- _ =>
           unfold bool_index_checked in Hb;
           destruct (Nat.eqb_spec (length (target_unobserved e)) (length (target_x e))) as [Hl|];
           [injection Hb as <-|discriminate]
       end.
  all: rewrite (reshape_bool_index _ _ Hp Hl) in *.
  all: match goal with Hr : Some _ = Some _ |- _ => injection Hr as <- end.
  all: match goal with
       | Ho : bool_assign_checked _ _ = Some _ |- _ =>
           unfold bool_assign_checked in Ho;
           destruct (Nat.eqb _ _) in Ho; [injection Ho as <-|discriminate]
       end.
  all: rewrite dup_negb, unobserved_bool_assign by (auto; rewrite !length_map, length_seq; reflexivity).
  all: apply filter_combine_ext.
  all: rewrite map_map, <- (map_nth_seq _ _ (0, 0)); apply map_ext_in; intros j Hj;
       apply in_seq in Hj; f_equal.
  all: rewrite !existsb_map; apply existsb_ext'; intros a.
  all: rewrite map_map, (nth_map_lt _ _ _ _ (0, 0)) by (simpl in Hj; lia); reflexivity.
Qed.

Lemma compute_helpers_mask_length e g e' g' :
  compute_helpers (e, g) = (inr tt, (e', g')) ->
  length (target_unobserved e) = length (target_x e).
Proof.
  intros H. unfold compute_helpers in H. unfold_monad H.
  repeat split_in H; try discriminate.
  all: match goal with
       | Hb : bool_index_checked _ _ = Some _ |- _ =>
           unfold bool_index_checked in Hb;
           destruct (Nat.eqb_spec (length (target_unobserved e)) (length (target_x e))) as [Hl|];
           [exact Hl|discriminate]
       end.
Qed.

Lemma unobserved_ones k (l : list Q) :
  length (repeat true (2 * k)) = length l -> unobserved_targets (repeat true (2 * k)) l = targets_of l.
Proof.
  revert l. induction k as [|k IH]; intros l Hl; simpl in *.
  - destruct l; [reflexivity|discriminate].
  - rewrite Nat.add_succ_r in *. simpl in *.
    destruct l as [|a [|b l]]; simpl in Hl; try discriminate. injection Hl as Hl.
    unfold unobserved_targets in *. simpl. f_equal. apply IH. exact Hl.
Qed.

(** After [reset], the unobserved targets are the targets that no agent
    sees strictly within [obs_rad] from its drawn position. *)
Theorem reset_unobserved e g o e' g' :
  reset (e, g) = (inr o, (e', g')) ->
  unobserved_targets (target_unobserved e') (target_x e') =
  filter (fun t => negb (existsb (fun a => Qltb (sq (px a - fst t) + sq (py a - snd t)) (obs_rad2 (prm e)))
                                 (x e')))
         (targets_of (target_x e)).
Proof.
  intros H. destruct (reset_decomp _ _ _ _ H) as (e1 & Hc & Hp & Ht & Hm & _).
  pose proof (compute_helpers_mask_length _ _ _ _ Hc) as Hl.
  pose proof (compute_helpers_effect _ _ _ _ _ Hc) as (_ & _ & Hx & _).
  pose proof (compute_helpers_mask_update _ _ _ _ Hc) as Hu.
  rewrite Hm in Hu, Hl. unfold ones_mask in Hu, Hl.
  rewrite Hu by apply (ones_mask_pairs (n_agents (prm e))).
  rewrite Hx, Hp, unobserved_ones, Ht by exact Hl. reflexivity.
Qed.

(** After a [step], the unobserved targets are those unobserved before it
    that no agent sees strictly within [obs_rad] from its new position. *)
Theorem step_unobserved c e g r e' g' :
  step c (e, g) = (inr r, (e', g')) ->
  pairs_eqb (target_unobserved e) = true ->
  unobserved_targets (target_unobserved e') (target_x e') =
  filter (fun t => negb (existsb (fun a => Qltb (sq (px a - fst t) + sq (py a - snd t)) (obs_rad2 (prm e)))
                                 (x e')))
         (unobserved_targets (target_unobserved e) (target_x e)).
Proof.
  intros H Hp. destruct (step_decomp _ _ _ _ _ H) as (us & _ & _ & _ & Hc & _).
  pose proof (compute_helpers_effect _ _ _ _ _ Hc) as (_ & _ & Hx & _).
  rewrite (compute_helpers_mask_update _ _ _ _ Hc Hp), Hx. reflexivity.
Qed.

Lemma clip_bounds lo hi v : lo <= hi -> lo <= clip lo hi v <= hi.
Proof.
  intros H. unfold clip. split.
  - apply Q.min_glb; [apply Q.le_max_r | exact H].
  - apply Q.le_min_r.
Qed.

Lemma integrate_bounded p a u : 0 <= v_max p -> vel_bounded (v_max p) (integrate p a u).
Proof.
  intros Hv. unfold vel_bounded, integrate. simpl.
  assert (Hlo : - v_max p <= -1 * v_max p) by (apply Qle_lteq; right; ring).
  assert (Hle : -1 * v_max p <= v_max p).
  { apply (Qle_trans _ 0); [|exact Hv].
    apply (Qle_trans _ (- v_max p)); [apply Qle_lteq; right; ring|].
    apply (Qle_trans _ (- 0)); [apply Qopp_le_compat; exact Hv|apply Qle_refl]. }
  destruct (clip_bounds _ _ (vx a + fst u * dt p) Hle) as [H1 H2].
  destruct (clip_bounds _ _ (vy a + snd u * dt p) Hle) as [H3 H4].
  repeat split; try assumption; eapply Qle_trans; eassumption.
Qed.

Lemma uniform_sample_bounds v u : 0 <= v -> 0 <= u < 1 -> - v <= - v + (v - - v) * u <= v.
Proof.
  intros Hv [Hu0 Hu1]. assert (H2 : 0 <= v - - v) by (apply (Qle_trans _ (v + v)); [|apply Qle_lteq; right; ring];
    apply (Qle_trans _ (0 + 0)); [apply Qle_refl|apply Qplus_le_compat; exact Hv]).
  split.
  - apply (Qle_trans _ (- v + 0)); [apply Qle_lteq; right; ring|].
    apply Qplus_le_r. apply Qmult_le_0_compat; assumption.
  - apply (Qle_trans _ (- v + (v - - v) * 1)).
    + apply Qplus_le_r. apply Qmult_le_compat_nonneg; split; try assumption;
        [apply Qle_refl | apply Qlt_le_weak, Hu1].
    + apply Qle_lteq; right; ring.
Qed.

Lemma in_zip4 a l0 l1 l2 l3 : In a (zip4 l0 l1 l2 l3) -> In (vx a) l2 /\ In (vy a) l3.
Proof.
  revert l1 l2 l3 a. induction l0 as [|a0 l0 IH]; intros [|a1 l1] [|a2 l2] [|a3 l3] a Hin;
    simpl in *; try contradiction.
  destruct Hin as [<- | Hin]; simpl; [auto|]. destruct (IH _ _ _ _ Hin); auto.
Qed.

Lemma reset_x e g :
  x (fst (snd (reset (e, g)))) = zip4
      (map (fun k => - px_max (prm e) + (px_max (prm e) - - px_max (prm e)) * gdraw g (gpos g + k))
           (seq 0 (n_agents (prm e))))
      (map (fun k => - py_max (prm e) + (py_max (prm e) - - py_max (prm e)) *
                     gdraw g (gpos g + n_agents (prm e) + k)) (seq 0 (n_agents (prm e))))
      (map (fun k => - v_max (prm e) + (v_max (prm e) - - v_max (prm e)) *
                     gdraw g (gpos g + n_agents (prm e) + n_agents (prm e) + k)) (seq 0 (n_agents (prm e))))
      (map (fun k => - v_max (prm e) + (v_max (prm e) - - v_max (prm e)) *
                     gdraw g (gpos g + n_agents (prm e) + n_agents (prm e) + n_agents (prm e) + k))
           (seq 0 (n_agents (prm e)))).
Proof.
  unfold reset. cbv [bind get_self put_self get_global put_global np_uniform lift_opt ret raise]. simpl.
  destruct (compute_helpers _) as [r [e' g']] eqn:Hc.
  apply compute_helpers_effect in Hc as (_ & _ & Hx & _). simpl in Hx.
  destruct r; simpl; exact Hx.
Qed.

Lemma step_x_cases c e g :
  x (fst (snd (step c (e, g)))) = x e \/
  exists us, x (fst (snd (step c (e, g)))) =
             map (fun xa => integrate (prm e) (fst xa) (snd xa)) (combine (x e) us).
Proof.
  unfold step. cbv [bind get_self put_self get_global put_global np_uniform lift_opt ret raise]. simpl.
  destruct (list_eqb _ _); simpl; [|left; reflexivity].
  destruct (reshape_pairs _) as [us|]; simpl; [|left; reflexivity].
  destruct (Nat.eqb _ _); simpl; [|left; reflexivity].
  right. exists us.
  destruct (compute_helpers _) as [r [e' g']] eqn:Hc.
  apply compute_helpers_effect in Hc as (_ & _ & Hx & _). simpl in Hx.
  destruct r; simpl; [exact Hx|]. exact Hx.
Qed.

Lemma step_prm c w : prm (fst (snd (step c w))) = prm (fst w).
Proof.
  destruct w as [e g]. destruct (step c (e, g)) as [r [e' g']] eqn:H.
  apply step_effect in H as (_ & Hp & _). exact Hp.
Qed.

Lemma run_steps_vel cs w :
  0 <= v_max (prm (fst w)) -> Forall (vel_bounded (v_max (prm (fst w)))) (x (fst w)) ->
  Forall (vel_bounded (v_max (prm (fst w)))) (x (fst (run_steps cs w))).
Proof.
  unfold run_steps. revert w. induction cs as [|c cs IH]; intros [e1 g1] Hv H1; [exact H1|].
  simpl fold_left. specialize (IH (snd (step c (e1, g1)))). rewrite !step_prm in IH.
  simpl fst in *. apply IH; [exact Hv|].
  destruct (step_x_cases c e1 g1) as [-> | [us ->]]; [exact H1|].
  apply Forall_forall. intros a Ha. apply in_map_iff in Ha as [xa [<- _]].
  apply integrate_bounded. exact Hv.
Qed.

(** With the draws of the global generator in [0, 1) and [v_max >= 0],
    after [reset] (returned or not) and any sequence of [step] calls (returned
    or not), every agent's velocity components lie in [-v_max, v_max]. *)
Theorem velocity_bounded (e : env) (g : gstate) (cs : list ndarray) :
  (forall k, 0 <= gdraw g k < 1) -> 0 <= v_max (prm e) ->
  Forall (vel_bounded (v_max (prm e))) (x (fst (run_steps cs (snd (reset (e, g)))))).
Proof.
  intros Hg Hv.
  assert (H0 : Forall (vel_bounded (v_max (prm e))) (x (fst (snd (reset (e, g)))))).
  { rewrite reset_x. apply Forall_forall. intros a Ha. apply in_zip4 in Ha as [H2 H3].
    unfold vel_bounded. apply in_map_iff in H2 as [k2 [<- _]]. apply in_map_iff in H3 as [k3 [<- _]].
    split; apply uniform_sample_bounds; auto. }
  assert (Hp : prm (fst (snd (reset (e, g)))) = prm e).
  { destruct (reset (e, g)) as [r [e' g']] eqn:H. apply reset_effect in H as (Hp & _). exact Hp. }
  pose proof (run_steps_vel cs (snd (reset (e, g)))) as Hr. rewrite Hp in Hr.
  apply Hr; assumption.
Qed.

Lemma nth_list_set {A} i (v : A) l c d :
  (c < length l)%nat -> nth c (list_set i v l) d = if Nat.eqb i c then v else nth c l d.
Proof.
  revert i c. induction l as [|a l IH]; intros i c Hc; simpl in Hc; [lia|].
  destruct i as [|i], c as [|c]; simpl; try reflexivity.
  apply IH. lia.
Qed.

Lemma is_matrix_row {A} n n' (m : list (list A)) r :
  is_matrix n n' m -> (r < n)%nat -> length (nth r m []) = n'.
Proof.
  intros [Hl Hc] Hr. rewrite Forall_forall in Hc. apply Hc, nth_In. lia.
Qed.

Lemma set_columns_entry cols m n n' r c :
  is_matrix n n' m -> (r < n)%nat -> (c < n')%nat ->
  nth c (nth r (set_columns cols m) []) 0 =
  if existsb (Nat.eqb c) cols then 1 else nth c (nth r m []) 0.
Proof.
  unfold set_columns. revert m. induction cols as [|j cols IH]; intros m Hm Hr Hc; simpl; [reflexivity|].
  assert (Hm' : is_matrix n n' (map (list_set j 1) m)).
  { destruct Hm as [Hl Hf]. split; [rewrite length_map; exact Hl|].
    apply Forall_map. eapply Forall_impl; [|exact Hf]. intros row Hrow. simpl.
    rewrite length_list_set. exact Hrow. }
  rewrite (IH _ Hm' Hr Hc).
  rewrite (nth_map_lt _ _ _ _ []) by (destruct Hm as [-> _]; exact Hr).
  rewrite nth_list_set by (rewrite (is_matrix_row _ _ _ _ Hm Hr); exact Hc).
  rewrite (Nat.eqb_sym j c). destruct (Nat.eqb c j), (existsb (Nat.eqb c) cols); reflexivity.
Qed.

Lemma fold_set_columns_entry (F : nat -> list nat) is m n n' r c :
  is_matrix n n' m -> (r < n)%nat -> (c < n')%nat ->
  nth c (nth r (fold_left (fun m i => set_columns (F i) m) is m) []) 0 =
  if existsb (fun i => existsb (Nat.eqb c) (F i)) is then 1 else nth c (nth r m []) 0.
Proof.
  revert m. induction is as [|i is IH]; intros m Hm Hr Hc; simpl; [reflexivity|].
  rewrite (IH _ (set_columns_matrix _ _ _ _ Hm) Hr Hc).
  rewrite (set_columns_entry _ _ _ _ _ _ Hm Hr Hc).
  destruct (existsb (Nat.eqb c) (F i)), (existsb _ is); reflexivity.
Qed.

Lemma fill_diagonal_entry m n n' v r c :
  is_matrix n n' m -> (r < n)%nat -> (c < n')%nat ->
  nth c (nth r (fill_diagonal m v) []) 0 = if Nat.eqb r c then v else nth c (nth r m []) 0.
Proof.
  intros Hm Hr Hc. unfold fill_diagonal, mapi.
  rewrite (nth_map_enum (fun p => list_set (fst p) v (snd p)) _ _ _ [])
    by (destruct Hm as [-> _]; exact Hr).
  simpl. apply nth_list_set. rewrite (is_matrix_row _ _ _ _ Hm Hr). exact Hc.
Qed.

Lemma build_adj_entry n k nearest r c :
  (r < n)%nat -> (c < n)%nat ->
  nth c (nth r (build_adj n k nearest) []) 0 =
  if Nat.eqb r c then 0
  else if existsb (fun i => existsb (Nat.eqb c) (map (fun row => nth i row O) nearest)) (seq 0 k)
       then 1 else 0.
Proof.
  intros Hr Hc. unfold build_adj.
  assert (H0 : is_matrix n n (repeat (repeat 0 n) n)).
  { split; [apply repeat_length|]. apply Forall_forall. intros row Hrow.
    apply repeat_spec in Hrow. subst row. apply repeat_length. }
  assert (H1 : forall l m, is_matrix n n m ->
            is_matrix n n (fold_left (fun m i => set_columns (map (fun row => nth i row O) nearest) m) l m)).
  { intros l. induction l as [|i l IH]; intros m Hm; simpl; [exact Hm|]. apply IH, set_columns_matrix, Hm. }
  rewrite (fill_diagonal_entry _ n n _ _ _ (H1 _ _ H0) Hr Hc).
  destruct (Nat.eqb r c); [reflexivity|].
  rewrite (fold_set_columns_entry _ _ _ n n r c H0 Hr Hc).
  rewrite nth_repeat_lt by exact Hr. rewrite nth_repeat_lt by exact Hc. reflexivity.
Qed.

Lemma existsb_columns_rows k c (nearest : list (list nat)) :
  Forall (fun row => length row = k) nearest ->
  existsb (fun i => existsb (Nat.eqb c) (map (fun row => nth i row O) nearest)) (seq 0 k) =
  existsb (fun row => existsb (Nat.eqb c) row) nearest.
Proof.
  intros Hk. rewrite Forall_forall in Hk. apply Bool.eq_true_iff_eq. rewrite !existsb_exists. split.
  - intros [i [Hi Hx]]. apply existsb_exists in Hx as [j [Hj Hcj]].
    apply in_map_iff in Hj as [row [<- Hrow]]. exists row. split; [exact Hrow|].
    apply existsb_exists. exists (nth i row O). split; [|exact Hcj].
    apply nth_In. rewrite Hk by exact Hrow. apply in_seq in Hi. lia.
  - intros [row [Hrow Hx]]. apply existsb_exists in Hx as [j [Hj Hcj]].
    apply In_nth with (d := O) in Hj as [i [Hi Hij]].
    exists i. split; [apply in_seq; rewrite Hk in Hi by exact Hrow; lia|].
    apply existsb_exists. exists j. split; [|exact Hcj].
    apply in_map_iff. exists row. split; [exact Hij|exact Hrow].
Qed.

Lemma traverse_argpartition_eq k rows ns :
  traverse_opt (argpartition_range k) rows = Some ns ->
  ns = map (fun r => firstn k (argsort r)) rows.
Proof.
  revert ns. induction rows as [|r rows IH]; intros ns H; simpl in H.
  - injection H as <-. reflexivity.
  - unfold argpartition_range at 1 in H. destruct (Nat.ltb (length r) k); [discriminate|].
    destruct (traverse_opt _ rows) as [ns'|]; [|discriminate].
    injection H as <-. simpl. f_equal. apply IH. reflexivity.
Qed.

Lemma length_argsort keys : length (argsort keys) = length keys.
Proof.
  unfold argsort. rewrite length_map.
  rewrite (Permutation_length (sort_keys_perm _)), length_combine, length_seq. lia.
Qed.

(** After a successful [compute_helpers], entry [(r, c)] of [adj_mat] is [0]
    on the diagonal and otherwise [1] exactly when [c] is one of the
    [nearest_agents] nearest indices of some agent, whatever the row [r]. *)
Theorem adj_mat_entries e g e' g' r c :
  compute_helpers (e, g) = (inr tt, (e', g')) ->
  (r < n_agents (prm e))%nat -> (c < n_agents (prm e))%nat ->
  nth c (nth r (adj_mat (hlp e')) []) 0 =
  if Nat.eqb r c then 0
  else if existsb (fun row => existsb (Nat.eqb c) (firstn (nearest_agents (prm e)) (argsort row)))
                  (mapi (r2_row (x e)) (x e))
       then 1 else 0.
Proof.
  intros H Hr Hc. unfold compute_helpers in H. unfold_monad H.
  repeat split_in H; try discriminate.
  all: injection H; intros; subst; simpl.
  all: rewrite build_adj_entry by assumption.
  all: destruct (Nat.eqb r c); [reflexivity|].
  all: match goal with
       | Ht : traverse_opt (argpartition_range _) _ = Some _ |- _ =>
           pose proof (traverse_argpartition_inv _ _ _ Ht) as Hfit;
           apply traverse_argpartition_eq in Ht; subst
       end.
  all: rewrite (existsb_columns_rows (nearest_agents (prm e))).
  all: try (rewrite existsb_map; reflexivity).
  all: apply Forall_map; eapply Forall_impl; [|exact Hfit]; simpl; intros row Hrow;
       rewrite length_firstn, length_argsort; lia.
Qed.

Lemma fold_Qplus_acc l acc : fold_left Qplus l acc == acc + fold_left Qplus l 0.
Proof.
  revert acc. induction l as [|a l IH]; intros acc; simpl; [ring|].
  rewrite (IH (acc + a)), (IH (0 + a)). ring.
Qed.

Lemma Qsum_cons a l : Qsum (a :: l) == a + Qsum l.
Proof. unfold Qsum. simpl. rewrite fold_Qplus_acc. ring. Qed.

Lemma Qsum_map_div l d : ~ d == 0 -> Qsum (map (fun a => a / d) l) == Qsum l / d.
Proof.
  intros Hd. induction l as [|a l IH]; [unfold Qsum; simpl; field; exact Hd|].
  simpl map. rewrite !Qsum_cons, IH. field. exact Hd.
Qed.

Lemma Qsum_nonneg l : Forall (fun a => 0 <= a) l -> 0 <= Qsum l.
Proof.
  induction 1 as [|a l Ha _ IH]; [apply Qle_refl|].
  rewrite Qsum_cons. apply (Qle_trans _ (0 + 0)); [apply Qle_refl|]. apply Qplus_le_compat; assumption.
Qed.

Lemma Qsum_zero l : Forall (fun a => 0 <= a) l -> Qsum l == 0 -> Forall (fun a => a == 0) l.
Proof.
  induction 1 as [|a l Ha Hl IH]; intros Hs; constructor.
  - rewrite Qsum_cons in Hs. pose proof (Qsum_nonneg _ Hl).
    apply Qle_antisym; [|exact Ha].
    apply (Qle_trans _ (a + Qsum l)); [|rewrite Hs; apply Qle_refl].
    apply (Qle_trans _ (a + 0)); [apply Qle_lteq; right; ring|]. apply Qplus_le_r. assumption.
  - apply IH. rewrite Qsum_cons in Hs. pose proof (Qsum_nonneg _ Hl).
    apply Qle_antisym; [|assumption].
    apply (Qle_trans _ (a + Qsum l)); [|rewrite Hs; apply Qle_refl].
    apply (Qle_trans _ (0 + Qsum l)); [apply Qle_lteq; right; ring|]. apply Qplus_le_l. assumption.
Qed.

Lemma list_set_Forall {A} (P : A -> Prop) i v l : P v -> Forall P l -> Forall P (list_set i v l).
Proof.
  intros Hv Hl. revert i. induction Hl as [|a l Ha Hl IH]; intros [|i]; simpl; auto.
Qed.

Lemma build_adj_nonneg n k nearest : Forall (Forall (fun a => 0 <= a)) (build_adj n k nearest).
Proof.
  unfold build_adj, fill_diagonal, mapi.
  assert (H1 : forall l m, Forall (Forall (fun a => 0 <= a)) m ->
            Forall (Forall (fun a => 0 <= a))
                   (fold_left (fun m i => set_columns (map (fun row => nth i row O) nearest) m) l m)).
  { intros l. induction l as [|i l IH]; intros m Hm; simpl; [exact Hm|]. apply IH.
    unfold set_columns. generalize (map (fun row => nth i row O) nearest) as cols.
    intros cols. revert m Hm. induction cols as [|j cols IHc]; intros m Hm; simpl; [exact Hm|].
    apply IHc. apply Forall_map. eapply Forall_impl; [|exact Hm]. intros row Hrow.
    apply list_set_Forall; [discriminate|exact Hrow]. }
  assert (H0 : Forall (Forall (fun a => 0 <= a)) (repeat (repeat 0 n) n)).
  { apply Forall_forall. intros row Hrow. apply repeat_spec in Hrow. subst row.
    apply Forall_forall. intros a Ha. apply repeat_spec in Ha. subst a. apply Qle_refl. }
  specialize (H1 (seq 0 k) _ H0). apply Forall_map. apply Forall_forall. intros [i row] Hin.
  apply in_combine_r in Hin. rewrite Forall_forall in H1. simpl.
  apply list_set_Forall; [apply Qle_refl|]. apply H1, Hin.
Qed.

Lemma mean_normalize_rows m :
  Forall (Forall (fun a => 0 <= a)) m ->
  Forall (fun row => Qsum row == 1 \/ Forall (fun a => a == 0) row) (mean_normalize m).
Proof.
  intros Hm. unfold mean_normalize. apply Forall_map. eapply Forall_impl; [|exact Hm].
  intros row Hrow. simpl. destruct (Qeq_bool (Qsum row) 0) eqn:Hs.
  - right. apply Qeq_bool_eq in Hs. pose proof (Qsum_zero _ Hrow Hs) as Hz.
    apply Forall_map. eapply Forall_impl; [|exact Hz]. intros a Ha. rewrite Ha. reflexivity.
  - left. apply Qeq_bool_neq in Hs. rewrite (Qsum_map_div _ _ Hs). field. exact Hs.
Qed.

(** After a successful [compute_helpers], every row of [adj_mat_mean] either
    sums to [1] or is all zeros. *)
Theorem adj_mat_mean_rows e g e' g' :
  compute_helpers (e, g) = (inr tt, (e', g')) ->
  Forall (fun row => Qsum row == 1 \/ Forall (fun a => a == 0) row) (adj_mat_mean (hlp e')).
Proof.
  intros H. unfold compute_helpers in H. unfold_monad H.
  repeat split_in H; try discriminate.
  all: injection H; intros; subst; simpl.
  all: apply mean_normalize_rows, build_adj_nonneg.
Qed.

Lemma map_nth_seq_firstn {A B} (F : A -> B) (l : list A) d n :
  (n <= length l)%nat -> map (fun j => F (nth j l d)) (seq 0 n) = map F (firstn n l).
Proof.
  revert n. induction l as [|a l IH]; intros [|n] Hn; simpl in *; try reflexivity; [lia|].
  f_equal. rewrite <- seq_shift, map_map. apply IH. lia.
Qed.

Lemma obs_target_row_firstn drow near k n_near nt :
  (n_near <= k)%nat -> obs_target_row drow (firstn k near) n_near nt = obs_target_row drow near n_near nt.
Proof.
  intros Hk. unfold obs_target_row. f_equal. f_equal. apply map_ext_in. intros i Hi.
  apply in_seq in Hi. rewrite nth_firstn. destruct (Nat.ltb_spec i k); [reflexivity|lia].
Qed.

Lemma obs_target_row_nearest (a : agent) (ts : list (Q * Q)) (nt : nat) :
  exists ord, Permutation ord ts /\
    Sorted (fun t1 t2 => r2_of (diff_target a t1) <= r2_of (diff_target a t2)) ord /\
    obs_target_row (map (diff_target a) ts)
                   (argsort (map XFin (map r2_of (map (diff_target a) ts))))
                   (Nat.min nt (length ts)) nt =
    concat (map (fun t => [px a - fst t; py a - snd t]) (firstn (Nat.min nt (length ts)) ord))
      ++ repeat 0 (2 * (nt - length ts)).
Proof.
  set (keys := map XFin (map r2_of (map (diff_target a) ts))).
  assert (Hkl : length keys = length ts) by (unfold keys; rewrite !length_map; reflexivity).
  set (S := sort_keys (combine keys (seq 0 (length keys)))).
  assert (HP : Forall (fun p => (snd p < length ts)%nat /\
                                 fst p = XFin (r2_of (diff_target a (nth (snd p) ts (0, 0))))) S).
  { apply Forall_forall. intros p Hp.
    apply (Permutation_in _ (sort_keys_perm _)) in Hp.
    apply (in_combine_seq _ _ (XFin 0)) in Hp as [Hj Hk]. rewrite Hkl in Hj.
    split; [exact Hj|]. rewrite Hk. unfold keys.
    rewrite (nth_map_lt _ _ _ _ 0) by (rewrite !length_map; exact Hj).
    rewrite (nth_map_lt _ _ _ _ (0, 0)) by (rewrite length_map; exact Hj).
    rewrite (nth_map_lt _ _ _ _ (0, 0)) by exact Hj. reflexivity. }
  assert (Hls : length (map snd S) = length ts).
  { unfold S. rewrite length_map, (Permutation_length (sort_keys_perm _)), length_combine, length_seq.
    lia. }
  exists (map (fun p => nth (snd p) ts (0, 0)) S).
  split; [|split].
  - eapply Permutation_trans; [apply Permutation_map, sort_keys_perm|].
    rewrite (map_snd_combine (fun j => nth j ts (0, 0))) by (rewrite length_seq; reflexivity).
    rewrite Hkl, (map_nth_seq (fun t => t)), map_id. reflexivity.
  - refine (Sorted_map_in key_le _ _ _ _ _ HP (sort_keys_sorted _)).
    intros p q Hp Hq H.
    destruct Hp as [_ Hp], Hq as [_ Hq]. unfold key_le in H. rewrite Hp, Hq in H.
    simpl in H. unfold Qltb in H. apply negb_false_iff, Qle_bool_iff in H. exact H.
  - unfold obs_target_row. f_equal; [|do 2 f_equal; lia].
    unfold argsort. fold keys. fold S.
    rewrite (map_nth_seq_firstn (fun j => [fst (nth j (map (diff_target a) ts) (0, 0));
                                          snd (nth j (map (diff_target a) ts) (0, 0))]))
      by (rewrite Hls; lia).
    rewrite !firstn_map, !map_map. f_equal. apply map_ext_in. intros p Hp.
    assert (Hp' : In p S)
      by (rewrite <- (firstn_skipn (Nat.min nt (length ts)) S); apply in_or_app; left; exact Hp).
    rewrite Forall_forall in HP. destruct (HP p Hp') as [Hj _].
    rewrite (nth_map_lt _ _ _ _ (0, 0)) by exact Hj. reflexivity.
Qed.

Lemma traverse_argpartition_map_eq {A} k (h : A -> list xreal) rows ns :
  traverse_opt (fun r => argpartition_range k (h r)) rows = Some ns ->
  ns = map (fun r => firstn k (argsort (h r))) rows.
Proof.
  revert ns. induction rows as [|r rows IH]; intros ns H; simpl in H.
  - injection H as <-. reflexivity.
  - unfold argpartition_range at 1 in H. destruct (Nat.ltb (length (h r)) k); [discriminate|].
    destruct (traverse_opt _ rows) as [ns'|]; [|discriminate].
    injection H as <-. simpl. f_equal. apply IH. reflexivity.
Qed.

Lemma compute_helpers_target_row (e : env) (g : gstate) (e' : env) (g' : gstate) (i : nat) :
  compute_helpers (e, g) = (inr tt, (e', g')) ->
  pairs_eqb (target_unobserved e) = true ->
  (i < length (x e))%nat ->
  let ts := unobserved_targets (target_unobserved e) (target_x e) in
  let nt := nearest_targets (prm e) in
  let a := nth i (x e) zero_agent in
  exists ord, Permutation ord ts /\
    Sorted (fun t1 t2 => sq (px a - fst t1) + sq (py a - snd t1) <=
                         sq (px a - fst t2) + sq (py a - snd t2)) ord /\
    let row := concat (map (fun t => [px a - fst t; py a - snd t]) (firstn (Nat.min nt (length ts)) ord))
                 ++ repeat 0 (2 * (nt - length ts)) in
    skipn (2 + 4 * nearest_agents (prm e)) (nth i (state_values (hlp e')) []) = row /\
    nth i (greedy_action (hlp e')) [] = map (fun q => -1 * q) (firstn 2 row).
Proof.
  intros H Hp Hi ts nt a.
  unfold compute_helpers in H. unfold_monad H.
  repeat split_in H; try discriminate.
  all: match goal with
       | Hb : bool_index_checked _ _ = Some _ |- _ =>
           unfold bool_index_checked in Hb;
           destruct (Nat.eqb_spec (length (target_unobserved e)) (length (target_x e))) as [Hl|];
           [injection Hb as <-|discriminate]
       end.
  all: rewrite (reshape_bool_index _ _ Hp Hl) in *.
  all: match goal with Hr : Some _ = Some _ |- _ => injection Hr as <- end.
  all: fold ts in H |- *.
  all: try match goal with
       | Ht : traverse_opt (fun _ => argpartition_range _ _) _ = Some _ |- _ =>
           apply traverse_argpartition_map_eq in Ht; subst
       end.
  all: injection H; intros; subst; simpl.
  all: rewrite nth_map_seq by exact Hi.
  all: rewrite skipn_app_exact
         by (rewrite (nth_map_enum _ _ _ _ zero_agent) by exact Hi; simpl;
             rewrite length_obs_neigh_row; lia).
  all: rewrite (nth_map_lt _ _ _ _ []) by (rewrite length_map, length_combine, length_seq, !length_map; lia).
  all: rewrite (nth_map_enum _ _ _ _ []) by (rewrite length_map; exact Hi); simpl.
  all: rewrite (nth_map_lt _ _ _ _ zero_agent) by exact Hi.
  all: rewrite (nth_map_lt _ _ _ _ []) by (rewrite !length_map; exact Hi).
  all: rewrite (nth_map_lt _ _ _ _ []) by (rewrite !length_map; exact Hi).
  all: rewrite (nth_map_lt _ _ _ _ zero_agent) by exact Hi.
  all: fold a.
  all: try (rewrite obs_target_row_firstn by lia).
  all: fold ts.
  all: destruct (obs_target_row_nearest a ts nt) as [ord [Hperm [Hs Hrow]]].
  all: exists ord; split; [exact Hperm|split; [exact Hs|]].
  all: unfold nt in Hrow |- *; rewrite Hrow; split; reflexivity.
Qed.

(** After a successful [compute_helpers], the target block of agent [i]'s row
    of [state_values] lists the relative positions of the [min nt m] nearest
    unobserved targets (of [m]) in increasing distance, then [2 (nt - m)]
    zeros. *)
Theorem target_block_nearest (e : env) (g : gstate) (e' : env) (g' : gstate) (i : nat) :
  compute_helpers (e, g) = (inr tt, (e', g')) ->
  pairs_eqb (target_unobserved e) = true ->
  (i < length (x e))%nat ->
  let ts := unobserved_targets (target_unobserved e) (target_x e) in
  let nt := nearest_targets (prm e) in
  let a := nth i (x e) zero_agent in
  exists ord, Permutation ord ts /\
    Sorted (fun t1 t2 => sq (px a - fst t1) + sq (py a - snd t1) <=
                         sq (px a - fst t2) + sq (py a - snd t2)) ord /\
    skipn (2 + 4 * nearest_agents (prm e)) (nth i (state_values (hlp e')) []) =
    concat (map (fun t => [px a - fst t; py a - snd t]) (firstn (Nat.min nt (length ts)) ord))
      ++ repeat 0 (2 * (nt - length ts)).
Proof.
  intros H Hp Hi ts nt a.
  destruct (compute_helpers_target_row e g e' g' i H Hp Hi) as [ord [Hperm [Hs [Hrow _]]]].
  exists ord. split; [exact Hperm|split; [exact Hs|exact Hrow]].
Qed.


Lemma compute_helpers_prm e g e' g' :
  compute_helpers (e, g) = (inr tt, (e', g')) -> prm e' = prm e.
Proof. intros H. apply compute_helpers_effect in H as (_ & Hp & _). exact Hp. Qed.

(** After a successful [compute_helpers] with at least one unobserved target
    and [nearest_targets >= 1], [controller] gives agent [i] the command
    [-(p_i - t) / action_scalar] toward an unobserved target [t] nearest to it. *)
Theorem controller_nearest_target (e : env) (g : gstate) (e' : env) (g' : gstate) (i : nat) :
  compute_helpers (e, g) = (inr tt, (e', g')) ->
  pairs_eqb (target_unobserved e) = true ->
  (i < length (x e))%nat ->
  (1 <= nearest_targets (prm e))%nat ->
  unobserved_targets (target_unobserved e) (target_x e) <> [] ->
  ~ action_scalar (prm e) == 0 ->
  let ts := unobserved_targets (target_unobserved e) (target_x e) in
  let a := nth i (x e) zero_agent in
  exists t, In t ts /\
    (forall t', In t' ts -> sq (px a - fst t) + sq (py a - snd t) <= sq (px a - fst t') + sq (py a - snd t')) /\
    nth i (controller e') [] =
    [-1 * (px a - fst t) / action_scalar (prm e); -1 * (py a - snd t) / action_scalar (prm e)].
Proof.
  intros H Hp Hi Hnt Hne _ ts a.
  destruct (compute_helpers_target_row e g e' g' i H Hp Hi) as [ord [Hperm [Hs [_ Hga]]]].
  fold ts a in Hperm, Hs, Hga.
  assert (Hlen : length ts <> 0%nat) by (unfold ts; destruct (unobserved_targets _ _); [contradiction|discriminate]).
  destruct ord as [|t ord].
  { apply Permutation_nil in Hperm. contradiction. }
  exists t. split; [|split].
  - apply (Permutation_in _ Hperm). left. reflexivity.
  - intros t' Ht'. apply (Permutation_in _ (Permutation_sym Hperm)) in Ht'.
    destruct Ht' as [<- | Ht']; [apply Qle_refl|].
    apply Sorted_StronglySorted in Hs; [|intros t1 t2 t3; apply Qle_trans].
    apply StronglySorted_inv in Hs as [_ Hall]. rewrite Forall_forall in Hall. apply Hall, Ht'.
  - unfold controller. rewrite (compute_helpers_prm _ _ _ _ H).
    rewrite (nth_map_lt _ _ _ _ []).
    2: { apply nth_error_Some. destruct (nth_error (greedy_action (hlp e')) i) eqn:Hn; [discriminate|].
         apply nth_error_None in Hn. rewrite nth_overflow in Hga by exact Hn.
         destruct (Nat.min (nearest_targets (prm e)) (length ts)) eqn:Hm; [lia|discriminate]. }
    rewrite Hga.
    destruct (Nat.min (nearest_targets (prm e)) (length ts)) eqn:Hm; [lia|].
    reflexivity.
Qed.




(** Only [reset] draws from the global numpy generator, exactly [4 n_agents]
    numbers, whether [compute_helpers] then raises or not; [params_from_cfg],
    [seed] and [step] leave it untouched. *)
Theorem global_rng_use (o : op) (e : env) (g : gstate) :
  snd (run_op o (e, g)) =
  match o with
  | OpReset => mkG (gdraw g) (gpos g + 4 * n_agents (prm e))
  | _ => g
  end.
Proof.
  destruct o as [a|s| |c]; simpl.
  - reflexivity.
  - reflexivity.
  - unfold reset. cbv [bind get_self put_self get_global put_global np_uniform lift_opt ret raise].
    simpl. destruct (compute_helpers _) as [r [e' g']] eqn:Hc.
    apply compute_helpers_effect in Hc as (-> & _). destruct r; simpl; f_equal; lia.
  - destruct (step c (e, g)) as [r [e' g']] eqn:Hs. apply step_effect in Hs as (-> & _). reflexivity.
Qed.

(** Operations other than [params_from_cfg] ([seed], [reset], [step], in any
    order and whatever they raise) never change the parameters or
    [target_x]. *)
Theorem params_targets_fixed (os : list op) (w : world) :
  forallb not_cfg os = true ->
  prm (fst (run_ops os w)) = prm (fst w) /\ target_x (fst (run_ops os w)) = target_x (fst w).
Proof.
  unfold run_ops. revert w. induction os as [|o os IH]; intros [e g] H; simpl in *; [split; reflexivity|].
  apply andb_prop in H as [Ho H]. destruct (IH (run_op o (e, g)) H) as [-> ->].
  destruct o as [a|s| |c]; simpl in *; try discriminate.
  - unfold seed. cbv [bind get_self put_self ret]. simpl. split; reflexivity.
  - destruct (reset (e, g)) as [r [e' g']] eqn:Hr. apply reset_effect in Hr as (Hp & Ht & _).
    split; assumption.
  - destruct (step c (e, g)) as [r [e' g']] eqn:Hs. apply step_effect in Hs as (_ & Hp & Ht & _).
    split; assumption.
Qed.

Lemma targets_of_row (xg : list Q) ty r :
  targets_of (concat (map (fun tx => [tx; ty]) xg) ++ r) = map (fun tx => (tx, ty)) xg ++ targets_of r.
Proof. induction xg as [|tx xg IH]; simpl; [reflexivity|]. f_equal. exact IH. Qed.

Lemma targets_of_grid xg yg :
  targets_of (target_grid xg yg) = concat (map (fun ty => map (fun tx => (tx, ty)) xg) yg).
Proof.
  unfold target_grid. induction yg as [|ty yg IH]; simpl; [reflexivity|].
  rewrite targets_of_row, IH. reflexivity.
Qed.

Lemma nth_grid (xg yg : list Q) r c d :
  (c < length xg)%nat -> (r < length yg)%nat ->
  nth (r * length xg + c) (concat (map (fun ty => map (fun tx => (tx, ty)) xg) yg)) d =
  (nth c xg 0, nth r yg 0).
Proof.
  intros Hc. revert r. induction yg as [|ty yg IH]; intros r Hr; simpl in Hr; [lia|]. simpl.
  destruct r as [|r].
  - rewrite app_nth1 by (rewrite length_map; lia). simpl.
    rewrite (nth_map_lt _ _ _ _ 0) by exact Hc. reflexivity.
  - rewrite app_nth2 by (rewrite length_map; lia). rewrite length_map.
    replace (S r * length xg + c - length xg)%nat with (r * length xg + c)%nat by lia.
    apply IH. lia.
Qed.

Lemma length_linspace s t n : length (linspace s t n) = n.
Proof. destruct n as [|[|k]]; simpl; [reflexivity|reflexivity|]. rewrite length_map, length_seq. reflexivity. Qed.

Lemma nth_linspace s t n i :
  (2 <= n)%nat -> (i < n)%nat -> nth i (linspace s t n) 0 == s + Qofnat i * ((t - s) / Qofnat (n - 1)).
Proof.
  intros Hn Hi. destruct n as [|[|k]]; [lia|lia|].
  assert (Hk : ~ Qofnat (S k) == 0) by (unfold Qofnat, Qeq; simpl; lia).
  unfold linspace. rewrite (nth_map_lt _ _ _ _ O) by (rewrite length_seq; exact Hi).
  rewrite seq_nth by exact Hi. simpl. replace (k - 0)%nat with k by lia.
  destruct (Nat.eqb_spec i (S k)) as [->|_]; [|reflexivity].
  field. exact Hk.
Qed.

(** After [params_from_cfg] with [n_agents = n >= 2], [target_x] holds
    [n^2] targets on the meshgrid of [linspace(-n, n, n)], row-major: target
    [k] is at [(-n + (k mod n) * 2n/(n-1), -n + (k div n) * 2n/(n-1))]. *)
Theorem params_from_cfg_grid (a : cfg) (w : world) (k : nat) :
  let n := c_n_agents a in
  let e' := fst (snd (params_from_cfg a w)) in
  (2 <= n)%nat -> (k < n * n)%nat ->
  length (targets_of (target_x e')) = (n * n)%nat /\
  fst (nth k (targets_of (target_x e')) (0, 0)) ==
    - Qofnat n + Qofnat (k mod n) * (2 * Qofnat n / Qofnat (n - 1)) /\
  snd (nth k (targets_of (target_x e')) (0, 0)) ==
    - Qofnat n + Qofnat (k / n) * (2 * Qofnat n / Qofnat (n - 1)).
Proof.
  intros n e' Hn Hk. unfold e', params_from_cfg. destruct w as [e g].
  cbv [bind get_self put_self ret]. simpl. fold n. rewrite targets_of_grid.
  set (L := linspace (- Qofnat n) (Qofnat n) n).
  assert (HL : length L = n) by apply length_linspace.
  assert (Hn0 : n <> O) by lia.
  split.
  - assert (Hc : forall (yg : list Q), length (concat (map (fun ty => map (fun tx => (tx, ty)) L) yg)) =
                                        (length yg * n)%nat).
    { intros yg. induction yg as [|ty yg IH]; simpl; [reflexivity|].
      rewrite length_app, length_map, IH, HL. lia. }
    rewrite Hc, HL. reflexivity.
  - assert (Hnth : nth k (concat (map (fun ty => map (fun tx => (tx, ty)) L) L)) (0, 0) =
                   (nth (k mod n) L 0, nth (k / n) L 0)).
    { replace k with (k / n * length L + k mod n)%nat at 1
        by (rewrite HL; rewrite (Nat.div_mod_eq k n) at 3; lia).
      apply nth_grid; rewrite HL; [apply Nat.mod_upper_bound; exact Hn0|].
      apply Nat.Div0.div_lt_upper_bound. lia. }
    rewrite Hnth. simpl. unfold L.
    rewrite !nth_linspace by (try exact Hn; first [apply Nat.mod_upper_bound; exact Hn0
                                                  | apply Nat.Div0.div_lt_upper_bound; lia]).
    clear Hnth. clearbody n. split; unfold Qdiv; ring.
Qed.

Lemma Permutation_filter' {A} (f : A -> bool) l l' :
  Permutation l l' -> Permutation (filter f l) (filter f l').
Proof.
  induction 1 as [|a l l' _ IH|a b l|l l' l'' _ IH1 _ IH2]; simpl.
  - constructor.
  - destruct (f a); [constructor|]; exact IH.
  - destruct (f a), (f b); try constructor; reflexivity.
  - etransitivity; eassumption.
Qed.

Lemma in_firstn' {A} n (l : list A) y : In y (firstn n l) -> In y l.
Proof. revert n. induction l as [|b l IH]; intros [|n] H; simpl in *; try contradiction.
  destruct H as [H|H]; [left; exact H|right; exact (IH n H)]. Qed.

Lemma key_le_trans : Transitive key_le.
Proof.
  intros [a i] [b j] [c k]. unfold key_le. simpl.
  destruct a as [a|], b as [b|], c as [c|]; simpl; try discriminate; try reflexivity.
  unfold Qltb. intros H1 H2. apply negb_false_iff, Qle_bool_iff in H1, H2.
  apply negb_false_iff, Qle_bool_iff. eapply Qle_trans; eassumption.
Qed.

Lemma StronglySorted_filter {A} (R : A -> A -> Prop) (f : A -> bool) l :
  StronglySorted R l -> StronglySorted R (filter f l).
Proof.
  induction 1 as [|a l _ IH Ha]; simpl; [constructor|].
  destruct (f a); [|exact IH]. constructor; [exact IH|].
  rewrite Forall_forall in Ha |- *. intros b Hb. apply filter_In in Hb as [Hb _]. apply Ha, Hb.
Qed.

Lemma map_snd_filter {A} (h : nat -> bool) (S : list (A * nat)) :
  map snd (filter (fun p => h (snd p)) S) = filter h (map snd S).
Proof. induction S as [|p S IH]; simpl; [reflexivity|]. destruct (h (snd p)); simpl; congruence. Qed.

(** In a key-sorted list where only index [i] has the key [np.Inf] and the
    indices are distinct, [(Inf, i)] comes last. *)
Lemma inf_last (S : list (xreal * nat)) i :
  StronglySorted key_le S -> NoDup (map snd S) ->
  Forall (fun p => fst p = XInf <-> snd p = i) S -> In i (map snd S) ->
  S = filter (fun p => negb (Nat.eqb (snd p) i)) S ++ [(XInf, i)].
Proof.
  induction S as [|[k j] S IH]; intros Hs Hnd Hf Hi; [destruct Hi|].
  apply StronglySorted_inv in Hs as [Hs Hle]. inversion Hnd as [|? ? Hnin Hnd']; subst.
  inversion Hf as [|? ? [Hk1 Hk2] Hf']; subst. simpl in *.
  destruct (Nat.eqb_spec j i) as [->|Hji]; simpl.
  - rewrite (Hk2 eq_refl). destruct S as [|q S]; [reflexivity|].
    exfalso. inversion Hle as [|? ? Hq _]; subst. inversion Hf' as [|? ? [Hq1 Hq2] _]; subst.
    unfold key_le in Hq. rewrite (Hk2 eq_refl) in Hq.
    destruct (fst q) eqn:Hfq; [discriminate|]. apply Hnin. left. apply Hq1. reflexivity.
  - destruct Hi as [Hi|Hi]; [contradiction|]. f_equal. apply IH; assumption.
Qed.

Lemma nth_r2_row xs i a j :
  (j < length xs)%nat ->
  nth j (r2_row xs i a) XInf =
  if Nat.eqb i j then XInf
  else XFin (sq (px a - px (nth j xs zero_agent)) + sq (py a - py (nth j xs zero_agent))).
Proof. intros Hj. unfold r2_row, mapi. rewrite (nth_map_enum _ _ _ _ zero_agent) by exact Hj. reflexivity. Qed.

Lemma argsort_r2_row xs i a :
  (i < length xs)%nat ->
  exists ord, Permutation ord (filter (fun j => negb (Nat.eqb j i)) (seq 0 (length xs))) /\
    Sorted (fun j1 j2 => sq (px a - px (nth j1 xs zero_agent)) + sq (py a - py (nth j1 xs zero_agent)) <=
                         sq (px a - px (nth j2 xs zero_agent)) + sq (py a - py (nth j2 xs zero_agent))) ord /\
    argsort (r2_row xs i a) = ord ++ [i].
Proof.
  intros Hi. set (keys := r2_row xs i a).
  assert (Hkl : length keys = length xs) by apply length_mapi.
  set (S := sort_keys (combine keys (seq 0 (length keys)))).
  assert (HP : Forall (fun p => (snd p < length xs)%nat /\ fst p = nth (snd p) keys XInf) S).
  { apply Forall_forall. intros p Hp.
    apply (Permutation_in _ (sort_keys_perm _)) in Hp.
    apply (in_combine_seq _ _ XInf) in Hp as [Hj Hk]. rewrite Hkl in Hj. split; assumption. }
  assert (Hperm : Permutation (map snd S) (seq 0 (length xs))).
  { eapply Permutation_trans; [apply Permutation_map, sort_keys_perm|].
    rewrite (map_snd_combine (fun j => j)) by (rewrite length_seq; reflexivity).
    rewrite map_id, Hkl. reflexivity. }
  assert (Hinf : Forall (fun p => fst p = XInf <-> snd p = i) S).
  { eapply Forall_impl; [|exact HP]. intros [k j] [Hj Hk]. simpl in *. rewrite Hk.
    unfold keys. rewrite nth_r2_row by exact Hj.
    destruct (Nat.eqb_spec i j); split; intros; subst; try reflexivity; try discriminate; congruence. }
  assert (Hlast : S = filter (fun p => negb (Nat.eqb (snd p) i)) S ++ [(XInf, i)]).
  { apply inf_last.
    - apply Sorted_StronglySorted; [exact key_le_trans|]. apply sort_keys_sorted.
    - apply (Permutation_NoDup (Permutation_sym Hperm)), seq_NoDup.
    - exact Hinf.
    - apply (Permutation_in _ (Permutation_sym Hperm)), in_seq. lia. }
  exists (map snd (filter (fun p => negb (Nat.eqb (snd p) i)) S)). split; [|split].
  - rewrite (map_snd_filter (fun j => negb (Nat.eqb j i))). apply Permutation_filter', Hperm.
  - assert (HS : StronglySorted key_le (filter (fun p => negb (Nat.eqb (snd p) i)) S)).
    { apply StronglySorted_filter, Sorted_StronglySorted; [exact key_le_trans|]. apply sort_keys_sorted. }
    refine (Sorted_map_in key_le _
              (fun p => fst p = XFin (sq (px a - px (nth (snd p) xs zero_agent)) +
                                      sq (py a - py (nth (snd p) xs zero_agent)))) _ _ _ _
              (StronglySorted_Sorted HS)).
    + intros p q Hp Hq H. unfold key_le in H. rewrite Hp, Hq in H. simpl in H.
      unfold Qltb in H. apply negb_false_iff, Qle_bool_iff in H. exact H.
    + apply Forall_forall. intros p Hp. apply filter_In in Hp as [Hp Hne].
      rewrite Forall_forall in HP. destruct (HP p Hp) as [Hj Hk]. rewrite Hk.
      unfold keys. rewrite nth_r2_row by exact Hj. rewrite Nat.eqb_sym.
      destruct (Nat.eqb (snd p) i); [discriminate|reflexivity].
  - unfold argsort. fold keys. fold S. rewrite Hlast at 1. rewrite map_app. reflexivity.
Qed.

(** After a successful [compute_helpers], the neighbour block of agent [i]'s
    row of [state_values] (the [4 nearest_agents] entries after its velocity)
    lists [x_i - x_j] for the [nearest_agents] first agents of an ordering of
    the other agents by increasing distance, followed by agent [i] itself,
    which is reached only when [nearest_agents = n_agents]. *)
Theorem neighbour_block (e : env) (g : gstate) (e' : env) (g' : gstate) (i : nat) :
  compute_helpers (e, g) = (inr tt, (e', g')) ->
  (i < length (x e))%nat ->
  let xs := x e in
  let k := nearest_agents (prm e) in
  let a := nth i xs zero_agent in
  exists ord, Permutation ord (filter (fun j => negb (Nat.eqb j i)) (seq 0 (length xs))) /\
    Sorted (fun j1 j2 => sq (px a - px (nth j1 xs zero_agent)) + sq (py a - py (nth j1 xs zero_agent)) <=
                         sq (px a - px (nth j2 xs zero_agent)) + sq (py a - py (nth j2 xs zero_agent))) ord /\
    firstn (4 * k) (skipn 2 (nth i (state_values (hlp e')) [])) =
    concat (map (fun j => diff_agent a (nth j xs zero_agent)) (firstn k (ord ++ [i]))).
Proof.
  intros H Hi xs k a.
  destruct (argsort_r2_row xs i a Hi) as [ord [Hperm [Hs Hord]]].
  exists ord. split; [exact Hperm|split; [exact Hs|]].
  unfold compute_helpers in H. unfold_monad H.
  repeat split_in H; try discriminate.
  all: match goal with
       | Ht : traverse_opt (argpartition_range _) _ = Some _ |- _ =>
           pose proof (traverse_argpartition_inv _ _ _ Ht) as Hfit;
           apply traverse_argpartition_eq in Ht; subst
       end.
  all: injection H; intros; subst; simpl.
  all: rewrite nth_map_seq by exact Hi; simpl.
  all: rewrite (nth_map_enum _ _ _ _ zero_agent) by exact Hi; simpl.
  all: fold xs a.
  all: assert (Hkn : (k <= length xs)%nat)
         by (destruct (r2_rows_inv _ _ Hfit) as [H0|H0]; [unfold xs in Hi; lia|exact H0]).
  all: rewrite (nth_map_lt _ _ _ _ []) by (rewrite length_mapi; exact Hi).
  all: unfold mapi at 1; rewrite (nth_map_enum _ _ _ _ zero_agent) by exact Hi; simpl; fold xs a.
  all: assert (HN : forall T, firstn (4 * k) (obs_neigh_row xs a (firstn k (argsort (r2_row xs i a))) k ++ T) =
                           obs_neigh_row xs a (firstn k (argsort (r2_row xs i a))) k)
         by (intros T; rewrite firstn_app, length_obs_neigh_row, Nat.sub_diag, firstn_O, app_nil_r;
             apply firstn_all2; rewrite length_obs_neigh_row; lia).
  all: rewrite HN.
  all: unfold obs_neigh_row.
  all: rewrite (map_nth_seq_firstn (fun j => nth j (map (diff_agent a) xs) [0; 0; 0; 0]))
         by (rewrite length_firstn, length_argsort; unfold r2_row; rewrite length_mapi; lia).
  all: rewrite firstn_firstn, Nat.min_id, Hord.
  all: f_equal; apply map_ext_in; intros j Hj.
  all: assert (Hjn : (j < length xs)%nat)
         by (apply in_firstn' in Hj; apply in_app_or in Hj as [Hj|[<-|[]]]; [|exact Hi];
             apply (Permutation_in _ Hperm), filter_In in Hj as [Hj _]; apply in_seq in Hj; lia).
  all: apply nth_map_lt; exact Hjn.
Qed.

Lemma velocity_bounded_witness :
  let e := fst w_cfg1 in
  (forall k, 0 <= gdraw g_half k < 1) /\ 0 <= v_max (prm e) /\
  Forall (vel_bounded (v_max (prm e))) (x (fst (run_steps [cmd_toward; cmd1] (snd (reset (e, g_half)))))).
Proof.
  intros e. assert (Hg : forall k, 0 <= gdraw g_half k < 1) by (intros k; split; [vm_compute; intro Hc; discriminate Hc | reflexivity]).
  assert (Hv : 0 <= v_max (prm e)) by (vm_compute; intro Hc; discriminate Hc).
  split; [exact Hg|split; [exact Hv|]]. apply (velocity_bounded e g_half _ Hg Hv).
Defined.

Lemma reset_unobserved_witness :
  let e := fst w_cfg1 in
  let g := snd w_cfg1 in
  let o := ok_of ([], []) (fst (reset w_cfg1)) in
  let e' := fst (snd (reset w_cfg1)) in
  let g' := snd (snd (reset w_cfg1)) in
  reset (e, g) = (inr o, (e', g')) /\
  unobserved_targets (target_unobserved e') (target_x e') =
  filter (fun t => negb (existsb (fun a => Qltb (sq (px a - fst t) + sq (py a - snd t)) (obs_rad2 (prm e)))
                                 (x e')))
         (targets_of (target_x e)).
Proof.
  intros e g o e' g'. assert (H : reset (e, g) = (inr o, (e', g'))) by (vm_compute; reflexivity).
  split; [exact H|]. apply (reset_unobserved e g o e' g' H).
Defined.

Lemma step_unobserved_witness :
  let e := fst w_near in
  let g := snd w_near in
  let r := ok_of no_step_result (fst (step cmd_toward w_near)) in
  let e' := fst (snd (step cmd_toward w_near)) in
  let g' := snd (snd (step cmd_toward w_near)) in
  step cmd_toward (e, g) = (inr r, (e', g')) /\ pairs_eqb (target_unobserved e) = true /\
  unobserved_targets (target_unobserved e') (target_x e') =
  filter (fun t => negb (existsb (fun a => Qltb (sq (px a - fst t) + sq (py a - snd t)) (obs_rad2 (prm e)))
                                 (x e')))
         (unobserved_targets (target_unobserved e) (target_x e)).
Proof.
  intros e g r e' g'. assert (H1 : step cmd_toward (e, g) = (inr r, (e', g'))) by (vm_compute; reflexivity).
  assert (H2 : pairs_eqb (target_unobserved e) = true) by (vm_compute; reflexivity).
  split; [exact H1|split; [exact H2|]]. apply (step_unobserved cmd_toward e g r e' g' H1 H2).
Defined.

Lemma adj_mat_entries_witness :
  let e := fst w_line in
  let g := snd w_line in
  let e' := fst (snd (compute_helpers (e, g))) in
  let g' := snd (snd (compute_helpers (e, g))) in
  compute_helpers (e, g) = (inr tt, (e', g')) /\ (0 < n_agents (prm e))%nat /\ (2 < n_agents (prm e))%nat /\
  nth 2 (nth 0 (adj_mat (hlp e')) []) 0 =
  if Nat.eqb 0 2 then 0
  else if existsb (fun row => existsb (Nat.eqb 2) (firstn (nearest_agents (prm e)) (argsort row)))
                  (mapi (r2_row (x e)) (x e))
       then 1 else 0.
Proof.
  intros e g e' g'.
  assert (H1 : compute_helpers (e, g) = (inr tt, (e', g'))) by (vm_compute; reflexivity).
  assert (H2 : (0 < n_agents (prm e))%nat) by (vm_compute; lia).
  assert (H3 : (2 < n_agents (prm e))%nat) by (vm_compute; lia).
  split; [exact H1|split; [exact H2|split; [exact H3|]]].
  apply (adj_mat_entries e g e' g' 0 2 H1 H2 H3).
Defined.

Lemma adj_mat_mean_rows_witness :
  let e := fst w_line in
  let g := snd w_line in
  let e' := fst (snd (compute_helpers (e, g))) in
  let g' := snd (snd (compute_helpers (e, g))) in
  compute_helpers (e, g) = (inr tt, (e', g')) /\
  Forall (fun row => Qsum row == 1 \/ Forall (fun a => a == 0) row) (adj_mat_mean (hlp e')).
Proof.
  intros e g e' g'.
  assert (H1 : compute_helpers (e, g) = (inr tt, (e', g'))) by (vm_compute; reflexivity).
  split; [exact H1|]. apply (adj_mat_mean_rows e g e' g' H1).
Defined.

Lemma target_block_nearest_witness :
  let e := fst w_line in
  let g := snd w_line in
  let e' := fst (snd (compute_helpers (e, g))) in
  let g' := snd (snd (compute_helpers (e, g))) in
  compute_helpers (e, g) = (inr tt, (e', g')) /\ pairs_eqb (target_unobserved e) = true /\
  (0 < length (x e))%nat /\
  let ts := unobserved_targets (target_unobserved e) (target_x e) in
  let nt := nearest_targets (prm e) in
  let a := nth 0 (x e) zero_agent in
  exists ord, Permutation ord ts /\
    Sorted (fun t1 t2 => sq (px a - fst t1) + sq (py a - snd t1) <=
                         sq (px a - fst t2) + sq (py a - snd t2)) ord /\
    skipn (2 + 4 * nearest_agents (prm e)) (nth 0 (state_values (hlp e')) []) =
    concat (map (fun t => [px a - fst t; py a - snd t]) (firstn (Nat.min nt (length ts)) ord))
      ++ repeat 0 (2 * (nt - length ts)).
Proof.
  intros e g e' g'.
  assert (H1 : compute_helpers (e, g) = (inr tt, (e', g'))) by (vm_compute; reflexivity).
  assert (H2 : pairs_eqb (target_unobserved e) = true) by (vm_compute; reflexivity).
  assert (H3 : (0 < length (x e))%nat) by (vm_compute; lia).
  split; [exact H1|split; [exact H2|split; [exact H3|]]].
  apply (target_block_nearest e g e' g' 0 H1 H2 H3).
Defined.

Lemma controller_nearest_target_witness :
  let e := fst w_line in
  let g := snd w_line in
  let e' := fst (snd (compute_helpers (e, g))) in
  let g' := snd (snd (compute_helpers (e, g))) in
  compute_helpers (e, g) = (inr tt, (e', g')) /\ pairs_eqb (target_unobserved e) = true /\
  (0 < length (x e))%nat /\ (1 <= nearest_targets (prm e))%nat /\
  unobserved_targets (target_unobserved e) (target_x e) <> [] /\
  ~ action_scalar (prm e) == 0 /\
  let ts := unobserved_targets (target_unobserved e) (target_x e) in
  let a := nth 0 (x e) zero_agent in
  exists t, In t ts /\
    (forall t', In t' ts -> sq (px a - fst t) + sq (py a - snd t) <= sq (px a - fst t') + sq (py a - snd t')) /\
    nth 0 (controller e') [] =
    [-1 * (px a - fst t) / action_scalar (prm e); -1 * (py a - snd t) / action_scalar (prm e)].
Proof.
  intros e g e' g'.
  assert (H1 : compute_helpers (e, g) = (inr tt, (e', g'))) by (vm_compute; reflexivity).
  assert (H2 : pairs_eqb (target_unobserved e) = true) by (vm_compute; reflexivity).
  assert (H3 : (0 < length (x e))%nat) by (vm_compute; lia).
  assert (H4 : (1 <= nearest_targets (prm e))%nat) by (vm_compute; lia).
  assert (H5 : unobserved_targets (target_unobserved e) (target_x e) <> []) by (vm_compute; discriminate).
  assert (H6 : ~ action_scalar (prm e) == 0) by (vm_compute; discriminate).
  split; [exact H1|split; [exact H2|split; [exact H3|split; [exact H4|split; [exact H5|split; [exact H6|]]]]]].
  apply (controller_nearest_target e g e' g' 0 H1 H2 H3 H4 H5 H6).
Defined.


Lemma params_targets_fixed_witness :
  let os := [OpSeed 3; OpReset; OpStep cmd1] in
  forallb not_cfg os = true /\
  prm (fst (run_ops os w_line)) = prm (fst w_line) /\
  target_x (fst (run_ops os w_line)) = target_x (fst w_line).
Proof.
  intros os. assert (H : forallb not_cfg os = true) by reflexivity.
  split; [exact H|]. apply (params_targets_fixed os w_line H).
Defined.

Lemma params_from_cfg_grid_witness :
  let n := c_n_agents cfg3 in
  let e' := fst (snd (params_from_cfg cfg3 (init_env 0, g_line))) in
  (2 <= n)%nat /\ (5 < n * n)%nat /\
  length (targets_of (target_x e')) = (n * n)%nat /\
  fst (nth 5 (targets_of (target_x e')) (0, 0)) ==
    - Qofnat n + Qofnat (5 mod n) * (2 * Qofnat n / Qofnat (n - 1)) /\
  snd (nth 5 (targets_of (target_x e')) (0, 0)) ==
    - Qofnat n + Qofnat (5 / n) * (2 * Qofnat n / Qofnat (n - 1)).
Proof.
  intros n e'. assert (H1 : (2 <= n)%nat) by (vm_compute; lia).
  assert (H2 : (5 < n * n)%nat) by (vm_compute; lia).
  split; [exact H1|split; [exact H2|]]. apply (params_from_cfg_grid cfg3 (init_env 0, g_line) 5 H1 H2).
Defined.

Lemma neighbour_block_witness :
  let e := fst w_line in
  let g := snd w_line in
  let e' := fst (snd (compute_helpers (e, g))) in
  let g' := snd (snd (compute_helpers (e, g))) in
  compute_helpers (e, g) = (inr tt, (e', g')) /\ (1 < length (x e))%nat /\
  let xs := x e in
  let k := nearest_agents (prm e) in
  let a := nth 1 xs zero_agent in
  exists ord, Permutation ord (filter (fun j => negb (Nat.eqb j 1)) (seq 0 (length xs))) /\
    Sorted (fun j1 j2 => sq (px a - px (nth j1 xs zero_agent)) + sq (py a - py (nth j1 xs zero_agent)) <=
                         sq (px a - px (nth j2 xs zero_agent)) + sq (py a - py (nth j2 xs zero_agent))) ord /\
    firstn (4 * k) (skipn 2 (nth 1 (state_values (hlp e')) [])) =
    concat (map (fun j => diff_agent a (nth j xs zero_agent)) (firstn k (ord ++ [1%nat]))).
Proof.
  intros e g e' g'.
  assert (H1 : compute_helpers (e, g) = (inr tt, (e', g'))) by (vm_compute; reflexivity).
  assert (H2 : (1 < length (x e))%nat) by (vm_compute; lia).
  split; [exact H1|split; [exact H2|]]. apply (neighbour_block e g e' g' 1 H1 H2).
Defined.
